(** * NeoPixel sign controller: colour primitives, segment model and
      animation frames of [main.py]

    The script computes with Python numbers.  Integers ([int]) are
    unbounded and are modelled by [Z].  Floating point values are
    modelled twice.

    - By exact arithmetic: rationals [Q] wherever the script only adds,
      multiplies, divides, compares and truncates (those definitions
      compute), and the reals [R] in the fade mode, which calls [math.sin]
      and [math.pi].  Rounding of the machine format is outside this model,
      so it is used for properties that rounding cannot disturb: guards and
      branches, index and buffer facts, orderings and ranges of channels,
      and values at inputs on which the machine computation is exact.

    - By IEEE 754 binary64 numbers (module [B64], on the kernel's primitive
      floats) for the wave mode, whose frames are stated with the very
      numbers the script computes. *)

From Stdlib Require Import ZArith QArith Qround Qabs Reals Psatz String.
From Stdlib Require Floats.
From stdpp Require Import base option list strings gmap.

Local Open Scope Z_scope.

(** ** Python numeric operations *)

Module Py.

(** [a <= b] and [a < b] on floats. *)
Definition leb (a b : Q) : bool := Qle_bool a b.
Definition ltb (a b : Q) : bool := negb (Qle_bool b a).

(** [int(x)] on a float: truncation toward zero. *)
Definition int (x : Q) : Z := Z.quot (Qnum x) (Zpos (Qden x)).

(** [a % b] on floats: the result takes the sign of [b], that is
    [a - b * floor (a / b)]. *)
Definition fmod (a b : Q) : Q := (a - b * inject_Z (Qfloor (a / b)))%Q.

(** [abs(x)]. *)
Definition abs (x : Q) : Q := Qabs x.

(** [max(l)] on a non-empty list of integers, head given apart. *)
Definition max (x : Z) (l : list Z) : Z := fold_left Z.max l x.

(** [range(a, b)]. *)
Definition range (a b : Z) : list Z := seqZ a (b - a).

End Py.

(** ** Colours and helper functions *)

Definition color : Type := Z * Z * Z.

(** [blend_color(c1, c2, factor)] *)
Definition blend_color (c1 c2 : color) (factor : Q) : color :=
  let '(r1, g1, b1) := c1 in
  let '(r2, g2, b2) := c2 in
  let r := Py.int ((1 - factor) * inject_Z r1 + factor * inject_Z r2)%Q in
  let g := Py.int ((1 - factor) * inject_Z g1 + factor * inject_Z g2)%Q in
  let b := Py.int ((1 - factor) * inject_Z b1 + factor * inject_Z b2)%Q in
  (r, g, b).

(** The intermediate quantities of [hsv_to_rgb]: chroma [c], the second
    largest component [x] and the match value [m]. *)
Definition hsv_c (s v : Q) : Q := (v * s)%Q.
Definition hsv_x (h s v : Q) : Q :=
  (hsv_c s v * (1 - Py.abs (Py.fmod (h / 60) 2 - 1)))%Q.
Definition hsv_m (s v : Q) : Q := (v - hsv_c s v)%Q.

(** The [if]/[elif] chain selecting [(rp, gp, bp)]. *)
Definition hsv_primes (h s v : Q) : Q * Q * Q :=
  let c := hsv_c s v in
  let x := hsv_x h s v in
  if Py.leb 0 h && Py.ltb h 60 then (c, x, 0%Q)
  else if Py.leb 60 h && Py.ltb h 120 then (x, c, 0%Q)
  else if Py.leb 120 h && Py.ltb h 180 then (0%Q, c, x)
  else if Py.leb 180 h && Py.ltb h 240 then (0%Q, x, c)
  else if Py.leb 240 h && Py.ltb h 300 then (x, 0%Q, c)
  else (c, 0%Q, x).

(** [hsv_to_rgb(h, s, v)] *)
Definition hsv_to_rgb (h s v : Q) : color :=
  let m := hsv_m s v in
  let '(rp, gp, bp) := hsv_primes h s v in
  let r := Py.int ((rp + m) * 255)%Q in
  let g := Py.int ((gp + m) * 255)%Q in
  let b := Py.int ((bp + m) * 255)%Q in
  (r, g, b).

(** A colour whose channels are integers in [0,255]. *)
Definition valid_channel (z : Z) : Prop := 0 <= z <= 255.
Definition valid_color (c : color) : Prop :=
  let '(r, g, b) := c in valid_channel r /\ valid_channel g /\ valid_channel b.

(** ** Segment model *)

Record segment := { letter : string; leds : list Z }.

(** [letter_configs]: the sign spells AWARENESS, 19 LEDs per letter. *)
Definition letter_configs : list segment :=
  [ {| letter := "A"; leds := Py.range 0 19 |};
    {| letter := "W"; leds := Py.range 19 38 |};
    {| letter := "A"; leds := Py.range 38 57 |};
    {| letter := "R"; leds := Py.range 57 76 |};
    {| letter := "E"; leds := Py.range 76 95 |};
    {| letter := "N"; leds := Py.range 95 114 |};
    {| letter := "E"; leds := Py.range 114 133 |};
    {| letter := "S"; leds := Py.range 133 152 |};
    {| letter := "S"; leds := Py.range 152 171 |} ].

(** One iteration of the loop that determines [NUM_LEDS]. *)
Definition num_leds_step (num : Z) (cfg : segment) : Z :=
  match leds cfg with
  | [] => num
  | x :: l =>
      let max_led := Py.max x l in
      if max_led + 1 >? num then max_led + 1 else num
  end.

(** The value of [NUM_LEDS] for a list of letter configurations. *)
Definition num_leds (cfgs : list segment) : Z := fold_left num_leds_step cfgs 0.

Definition NUM_LEDS : Z := num_leds letter_configs.

(** All LED indices of a configuration, in the order the fade loop visits
    them. *)
Definition all_leds (cfgs : list segment) : list Z := concat (map leds cfgs).

(** ** The pixel buffer [np]

    The driver object is not part of the script.  Its item assignment
    stores the three channels into a byte array of [3 * n] bytes at offset
    [3 * i], so an index follows Python's sequence indexing: positions
    [0 .. n-1], the negative indices [-n .. -1] counted from the end, and
    [IndexError] (here [None]) otherwise. *)

Definition np_index (n : nat) (i : Z) : option nat :=
  if (0 <=? i) && (i <? Z.of_nat n) then Some (Z.to_nat i)
  else if (- Z.of_nat n <=? i) && (i <? 0) then Some (Z.to_nat (i + Z.of_nat n))
  else None.

(** [np[i] = c] *)
Definition np_set (np : list color) (i : Z) (c : color) : option (list color) :=
  k ← np_index (length np) i; Some (<[k := c]> np).

(** [for i in idxs: np[i] = f(i)] *)
Fixpoint set_each (f : Z -> color) (idxs : list Z) (np : list color)
  : option (list color) :=
  match idxs with
  | [] => Some np
  | i :: rest => np' ← np_set np i (f i); set_each f rest np'
  end.

(** [clear_strip()], on a strip of [num] LEDs; [np.write()] hands the
    buffer to the strip and leaves it unchanged. *)
Definition clear_strip (num : Z) (np : list color) : option (list color) :=
  set_each (fun _ => (0, 0, 0)) (Py.range 0 num) np.

(** ** Mode 1: fade letters *)

Module Fade.

(** [int(x)] on a real-valued float. *)
Definition int (x : R) : Z := if Rle_dec 0 x then Zfloor x else Zceil x.

Definition color_map : gmap string color :=
  list_to_map
    [ ("A", (255, 0, 0)); ("W", (0, 255, 0)); ("R", (0, 0, 255));
      ("E", (255, 255, 0)); ("N", (0, 255, 255)); ("S", (255, 0, 255)) ].

Record letter_param := { base_color : color; phase_offset : R }.

(** The set-up loop; [uniform k] is the value returned by the [k]-th call
    of [random.uniform(0, 2 * math.pi)]. *)
Definition letter_params (cfgs : list segment) (uniform : nat -> R)
  : list letter_param :=
  imap (fun k cfg =>
          {| base_color := default (255, 255, 255) (color_map !! letter cfg);
             phase_offset := uniform k |}) cfgs.

Definition period : R := 5.

Definition brightness (t phase : R) : R :=
  ((sin (2 * PI * (t / period) + phase) + 1) / 2)%R.

Definition scaled_color (base : color) (brightness : R) : color :=
  let '(r, g, b) := base in
  (int (IZR r * brightness), int (IZR g * brightness), int (IZR b * brightness)).

(** The colour the frame at time [t] gives to a letter. *)
Definition letter_color (p : letter_param) (t : R) : color :=
  scaled_color (base_color p) (brightness t (phase_offset p)).

(** [for idx, cfg in enumerate(letter_configs): ...], from position [idx]. *)
Fixpoint update_letters (params : list letter_param) (t : R) (idx : nat)
  (cfgs : list segment) (np : list color) : option (list color) :=
  match cfgs with
  | [] => Some np
  | cfg :: rest =>
      p ← params !! idx;
      np' ← set_each (fun _ => letter_color p t) (leds cfg) np;
      update_letters params t (S idx) rest np'
  end.

(** The body of the [while] loop: the buffer handed to [np.write()] at
    elapsed time [t]. *)
Definition frame (cfgs : list segment) (params : list letter_param) (t : R)
  (np : list color) : option (list color) :=
  update_letters params t 0 cfgs np.

End Fade.

(** ** Mode 2: wave effect *)

Module Wave.

Definition warm_white : color := (255, 244, 229).
Definition wave_colors : list color := [(0, 0, 255); (0, 255, 0); (255, 255, 0)].
Definition wave_period_ms : Z := 10000.
Definition threshold : Z := 3.

(** [phase], from the tick counter value [current_time]. *)
Definition phase (current_time : Z) : Q :=
  (inject_Z (current_time mod wave_period_ms) / inject_Z wave_period_ms)%Q.

Definition wave_pos (num : Z) (current_time : Z) : Q :=
  (phase current_time * inject_Z num)%Q.

Definition wave_color (wave_pos : Q) : color :=
  wave_colors !!! Z.to_nat (Py.int wave_pos mod Z.of_nat (length wave_colors)).

(** The colour computed for LED [i] in the [for] loop. *)
Definition led_color (num current_time i : Z) : color :=
  let wp := wave_pos num current_time in
  let distance := Py.abs (inject_Z i - wp) in
  if Py.ltb distance (inject_Z threshold)
  then blend_color warm_white (wave_color wp) (1 - distance / inject_Z threshold)
  else warm_white.

(** The body of the [while] loop for a strip of [num] LEDs. *)
Definition frame (num current_time : Z) (np : list color) : option (list color) :=
  set_each (led_color num current_time) (Py.range 0 num) np.

(** The wave position of the frame drawn [elapsed] milliseconds after the
    mode was entered at tick [start_time]: the loop reads the tick counter
    again and does not subtract [start_time]. *)
Definition wave_pos_after (num start_time elapsed : Z) : Q :=
  wave_pos num (start_time + elapsed).

End Wave.

(** ** Binary64 arithmetic and the wave mode on it

    Where a property names the very values a frame writes, the floats are
    modelled as IEEE 754 binary64 numbers with the kernel's primitive
    operations, which round to nearest even as Python's do. *)

Module B64.

(** [float(z)] for an integer [z], correctly rounded (exact below 2^53).
    From 2^1024 on, where Python raises [OverflowError], it is an infinity;
    no index, tick residue or channel of a strip comes near. *)
Definition of_int (z : Z) : PrimFloat.float :=
  FloatOps.SF2Prim (SpecFloat.binary_normalize FloatOps.prec FloatOps.emax z 0 false).

(** [int(x)] on a float: truncation toward zero; [None] where Python raises
    ([OverflowError] on an infinity, [ValueError] on a NaN). *)
Definition int (x : PrimFloat.float) : option Z :=
  match FloatOps.Prim2SF x with
  | SpecFloat.S754_zero _ => Some 0
  | SpecFloat.S754_finite s m e => Some (SpecFloat.cond_Zopp s (Z.shiftl (Zpos m) e))
  | SpecFloat.S754_infinity _ => None
  | SpecFloat.S754_nan => None
  end.

(** One channel of [blend_color]: [int((1 - factor) * a + factor * b)]. *)
Definition blend_channel (a b : Z) (factor : PrimFloat.float) : option Z :=
  int (PrimFloat.add
         (PrimFloat.mul (PrimFloat.sub (of_int 1) factor) (of_int a))
         (PrimFloat.mul factor (of_int b))).

(** [blend_color(c1, c2, factor)] *)
Definition blend_color (c1 c2 : color) (factor : PrimFloat.float) : option color :=
  let '(r1, g1, b1) := c1 in
  let '(r2, g2, b2) := c2 in
  r ← blend_channel r1 r2 factor;
  g ← blend_channel g1 g2 factor;
  b ← blend_channel b1 b2 factor;
  Some (r, g, b).

(** [phase = (current_time % wave_period_ms) / wave_period_ms] *)
Definition phase (current_time : Z) : PrimFloat.float :=
  PrimFloat.div (of_int (current_time mod Wave.wave_period_ms))
                (of_int Wave.wave_period_ms).

(** [wave_pos = phase * NUM_LEDS] *)
Definition wave_pos (num current_time : Z) : PrimFloat.float :=
  PrimFloat.mul (phase current_time) (of_int num).

(** [wave_colors[int(wave_pos) % len(wave_colors)]] *)
Definition wave_color (wave_pos : PrimFloat.float) : option color :=
  k ← int wave_pos;
  Some (Wave.wave_colors !!! Z.to_nat (k mod Z.of_nat (length Wave.wave_colors))).

(** [distance = abs(i - wave_pos)] *)
Definition distance (wave_pos : PrimFloat.float) (i : Z) : PrimFloat.float :=
  PrimFloat.abs (PrimFloat.sub (of_int i) wave_pos).

(** [factor = 1 - (distance / threshold)] *)
Definition factor (distance : PrimFloat.float) : PrimFloat.float :=
  PrimFloat.sub (of_int 1) (PrimFloat.div distance (of_int Wave.threshold)).

(** The colour computed for LED [i] in the [for] loop. *)
Definition led_color (wave_pos : PrimFloat.float) (wave_color : color) (i : Z)
  : option color :=
  if PrimFloat.ltb (distance wave_pos i) (of_int Wave.threshold)
  then blend_color Wave.warm_white wave_color (factor (distance wave_pos i))
  else Some Wave.warm_white.

(** [for i in idxs: np[i] = f(i)], where computing [f(i)] may raise. *)
Fixpoint set_each (f : Z -> option color) (idxs : list Z) (np : list color)
  : option (list color) :=
  match idxs with
  | [] => Some np
  | i :: rest => c ← f i; np' ← np_set np i c; set_each f rest np'
  end.

(** The body of the [while] loop for a strip of [num] LEDs. *)
Definition frame (num current_time : Z) (np : list color) : option (list color) :=
  let wp := wave_pos num current_time in
  wc ← wave_color wp;
  set_each (led_color wp wc) (Py.range 0 num) np.

(** *** A check of every frame of the 171-LED strip

    A frame depends on the tick only through its residue modulo 10000, so
    the conversions of all frames of the strip of the script can be
    checked by running them. *)

Definition three : PrimFloat.float := Eval vm_compute in of_int Wave.threshold.
Definition period : PrimFloat.float := Eval vm_compute in of_int Wave.wave_period_ms.
Definition strip : PrimFloat.float := Eval vm_compute in of_int 171.

(** The conversions for one LED succeed; [fi] is [float(i)]. *)
Definition pixel_ok (wp : PrimFloat.float) (wc : color) (fi : PrimFloat.float) : bool :=
  let d := PrimFloat.abs (PrimFloat.sub fi wp) in
  if PrimFloat.ltb d three
  then match blend_color Wave.warm_white wc (PrimFloat.sub (of_int 1) (PrimFloat.div d three)) with
       | Some _ => true
       | None => false
       end
  else true.

(** The conversions of the frame at residue [r] succeed and the wave
    position truncates to a natural number. *)
Definition frame_ok (fl : list PrimFloat.float) (r : Z) : bool :=
  let wp := PrimFloat.mul (PrimFloat.div (of_int r) period) strip in
  match int wp with
  | Some k =>
      (0 <=? k) &&
      forallb (pixel_ok wp (Wave.wave_colors !!! Z.to_nat (k mod 3))) fl
  | None => false
  end.

End B64.

(** ** The specification's formulations, for comparison *)

Module Spec.






(** Wave position from the time elapsed since activation, in
    milliseconds, with period 10 s. *)
Definition wave_pos (num elapsed : Z) : Q :=
  (inject_Z (elapsed mod 10000) / 10000 * inject_Z num)%Q.

End Spec.

(** ** Facts on the numeric operations *)

Lemma leb_le (a b : Q) : Py.leb a b = true <-> (a <= b)%Q.
Proof. apply Qle_bool_iff. Qed.

Lemma ltb_lt (a b : Q) : Py.ltb a b = true <-> (a < b)%Q.
Proof.
  unfold Py.ltb. rewrite negb_true_iff.
  split.
  - intros H. apply Qnot_le_lt. intros Hle.
    apply Qle_bool_iff in Hle. congruence.
  - intros H. destruct (Qle_bool b a) eqn:E; [|reflexivity].
    apply Qle_bool_iff in E. exfalso. revert E. apply Qlt_not_le, H.
Qed.


Lemma ltb_nlt (a b : Q) : Py.ltb a b = false <-> (b <= a)%Q.
Proof.
  unfold Py.ltb. rewrite negb_false_iff. apply Qle_bool_iff.
Qed.

(** On a non-negative float, [int] is the floor. *)
Lemma int_floor (x : Q) : (0 <= x)%Q -> Py.int x = Qfloor x.
Proof.
  destruct x as [n d]. unfold Py.int, Qfloor, Qle. simpl.
  intros H. apply Z.quot_div_nonneg; lia.
Qed.

(** On a non-positive float, [int] is the ceiling. *)
Lemma int_ceiling (x : Q) : (x <= 0)%Q -> Py.int x = Qceiling x.
Proof.
  destruct x as [n d]. unfold Py.int, Qceiling, Qfloor, Qle, Qopp. simpl.
  intros H.
  replace n with (- (- n)) at 1 by lia.
  rewrite Z.quot_opp_l by lia.
  f_equal. apply Z.quot_div_nonneg; lia.
Qed.

#[global] Instance int_proper : Proper (Qeq ==> eq) Py.int.
Proof.
  intros x y E.
  destruct (Qlt_le_dec x 0) as [Hneg | Hpos].
  - rewrite !int_ceiling.
    + now rewrite E.
    + rewrite <- E. now apply Qlt_le_weak.
    + now apply Qlt_le_weak.
  - rewrite !int_floor.
    + now rewrite E.
    + now rewrite <- E.
    + exact Hpos.
Qed.

Lemma int_inject_Z (z : Z) : Py.int (inject_Z z) = z.
Proof. unfold Py.int, inject_Z. simpl. apply Z.quot_1_r. Qed.


Lemma fmod_bounds (a b : Q) : (0 < b)%Q -> (0 <= Py.fmod a b < b)%Q.
Proof.
  intros Hb. unfold Py.fmod.
  pose proof (Qfloor_le (a / b)) as H1. pose proof (Qlt_floor (a / b)) as H2.
  rewrite inject_Z_plus in H2.
  set (k := inject_Z (Qfloor (a / b))) in *.
  assert (Ha : (a == b * (a / b))%Q) by (field; intros E; rewrite E in Hb; now apply Qlt_irrefl in Hb).
  set (q := (a / b)%Q) in *.
  split.
  - rewrite Ha at 1. nra.
  - rewrite Ha at 1. change (inject_Z 1) with 1%Q in H2. nra.
Qed.



Lemma int_bounds (q : Q) (n : Z) :
  (0 <= q)%Q -> (q <= inject_Z n)%Q -> 0 <= Py.int q <= n.
Proof.
  intros H0 Hn. rewrite int_floor by exact H0. split.
  - change 0 with (Qfloor 0). now apply Qfloor_resp_le.
  - rewrite <- (Qfloor_Z n). now apply Qfloor_resp_le.
Qed.

(** ** Facts on [blend_color] *)

Lemma blend_channel_0 (a b : Z) :
  Py.int ((1 - 0) * inject_Z a + 0 * inject_Z b)%Q = a.
Proof.
  rewrite <- (int_inject_Z a) at 2. apply int_proper. ring.
Qed.

Lemma blend_channel_1 (a b : Z) :
  Py.int ((1 - 1) * inject_Z a + 1 * inject_Z b)%Q = b.
Proof.
  rewrite <- (int_inject_Z b) at 2. apply int_proper. ring.
Qed.

Lemma blend_color_proper (c1 c2 : color) (f f' : Q) :
  (f == f')%Q -> blend_color c1 c2 f = blend_color c1 c2 f'.
Proof.
  intros E. destruct c1 as [[r1 g1] b1], c2 as [[r2 g2] b2]. unfold blend_color.
  f_equal; [f_equal|]; apply int_proper; now rewrite E.
Qed.

Lemma blend_color_one (c1 c2 : color) : blend_color c1 c2 1 = c2.
Proof.
  destruct c1 as [[r1 g1] b1], c2 as [[r2 g2] b2]. unfold blend_color.
  now rewrite !blend_channel_1.
Qed.

Lemma blend_color_zero (c1 c2 : color) : blend_color c1 c2 0 = c1.
Proof.
  destruct c1 as [[r1 g1] b1], c2 as [[r2 g2] b2]. unfold blend_color.
  now rewrite !blend_channel_0.
Qed.

(** ** Facts on [hsv_to_rgb] *)

Section HsvRange.
Variables h s v : Q.
Hypothesis Hs : (0 <= s <= 1)%Q.
Hypothesis Hv : (0 <= v <= 1)%Q.

Lemma hsv_c_range : (0 <= hsv_c s v <= v)%Q.
Proof. unfold hsv_c. nra. Qed.


Lemma hsv_x_range : (0 <= hsv_x h s v <= hsv_c s v)%Q.
Proof.
  unfold hsv_x, Py.abs.
  pose proof hsv_c_range as Hc.
  assert (Hmod : (0 <= Py.fmod (h / 60) 2 < 2)%Q) by (apply fmod_bounds; reflexivity).
  set (w := Py.fmod (h / 60) 2) in *.
  assert (Habs : (0 <= Qabs (w - 1) <= 1)%Q).
  { split; [apply Qabs_nonneg|]. apply Qabs_Qle_condition. lra. }
  set (u := Qabs (w - 1)) in *. nra.
Qed.

(** Any of the three values a branch can put in a primed component, once
    the match value is added and scaled, truncates into [0,255]. *)
Lemma channel_range (p : Q) :
  (0 <= p <= hsv_c s v)%Q -> 0 <= Py.int ((p + hsv_m s v) * 255)%Q <= 255.
Proof.
  intros Hp. pose proof hsv_c_range as Hc.
  apply int_bounds; unfold hsv_m in *.
  - nra.
  - change (inject_Z 255) with 255%Q. nra.
Qed.

Lemma channel_c_range : 0 <= Py.int ((hsv_c s v + hsv_m s v) * 255)%Q <= 255.
Proof. apply channel_range. pose proof hsv_c_range. lra. Qed.

Lemma channel_x_range : 0 <= Py.int ((hsv_x h s v + hsv_m s v) * 255)%Q <= 255.
Proof. apply channel_range, hsv_x_range. Qed.

Lemma channel_0_range : 0 <= Py.int ((0 + hsv_m s v) * 255)%Q <= 255.
Proof. apply channel_range. pose proof hsv_c_range. lra. Qed.

Lemma hsv_to_rgb_valid : valid_color (hsv_to_rgb h s v).
Proof.
  pose proof channel_c_range. pose proof channel_x_range.
  pose proof channel_0_range.
  unfold hsv_to_rgb, hsv_primes, valid_color, valid_channel.
  repeat match goal with
         | |- context [if ?b then _ else _] => destruct b
         end; auto.
Qed.
End HsvRange.





(** The primary hues, and a grey. *)
Example hsv_to_rgb_primaries :
  hsv_to_rgb 0 1 1 = (255, 0, 0) /\
  hsv_to_rgb 120 1 1 = (0, 255, 0) /\
  hsv_to_rgb 240 1 1 = (0, 0, 255) /\
  hsv_to_rgb 200 0 (1 # 2) = (127, 127, 127).
Proof. repeat split; reflexivity. Qed.

(** ** Colour primitives: the properties of the specification *)

(** C5.  For valid colours [c1] and [c2], [blend_color c1 c2 0] is exactly
    [c1] and [blend_color c1 c2 1] is exactly [c2]; the factor is used as
    given, without clamping, so a factor beyond 1 extrapolates past the
    channel range. *)
Theorem blend_color_endpoints (c1 c2 : color) :
  valid_color c1 -> valid_color c2 ->
  blend_color c1 c2 0 = c1 /\
  blend_color c1 c2 1 = c2 /\
  blend_color (0, 0, 0) (255, 255, 255) 2 = (510, 510, 510) /\
  blend_color (10, 20, 30) (255, 255, 255) (-1) = (-235, -215, -195).
Proof.
  intros _ _. split; [apply blend_color_zero|].
  split; [apply blend_color_one|].
  split; reflexivity.
Qed.

Lemma blend_color_endpoints_witness :
  blend_color (255, 244, 229) (0, 0, 255) 0 = (255, 244, 229) /\
  blend_color (255, 244, 229) (0, 0, 255) 1 = (0, 0, 255).
Proof.
  destruct (blend_color_endpoints (255, 244, 229) (0, 0, 255)) as (H0 & H1 & _).
  - unfold valid_color, valid_channel. lia.
  - unfold valid_color, valid_channel. lia.
  - split; [exact H0 | exact H1].
Defined.

(** C10.  For saturation and value in [0,1] and any hue, in or out of
    [0,360), every channel returned by [hsv_to_rgb] is an integer in
    [0,255], although no clamp is applied. *)
Theorem hsv_to_rgb_channels_in_range (h s v : Q) :
  (0 <= s <= 1)%Q -> (0 <= v <= 1)%Q -> valid_color (hsv_to_rgb h s v).
Proof.
  intros Hs Hv. apply hsv_to_rgb_valid; assumption.
Qed.

Lemma hsv_to_rgb_channels_in_range_witness :
  valid_color (hsv_to_rgb (-720) (1 # 4) (7 # 8)).
Proof.
  apply hsv_to_rgb_channels_in_range; split; discriminate.
Defined.







(** ** Segment model: the derived strip length *)

Lemma py_max_spec (l : list Z) (x : Z) :
  x <= Py.max x l /\
  (forall y, y ∈ l -> y <= Py.max x l) /\
  Py.max x l ∈ x :: l.
Proof.
  unfold Py.max. revert x. induction l as [|a l IH]; intros x; simpl.
  - split; [lia|]. split; [intros y Hy; inversion Hy | left].
  - destruct (IH (Z.max x a)) as (H1 & H2 & H3).
    split; [lia|]. split.
    + intros y Hy. apply elem_of_cons in Hy as [-> | Hy]; [lia | auto].
    + apply elem_of_cons in H3 as [E | H3].
      * rewrite E. destruct (Z.max_spec x a) as [[_ ->] | [_ ->]].
        -- right; left.
        -- left.
      * right; right; exact H3.
Qed.

(** One iteration either keeps the running value or moves it to one plus
    the largest index of the segment. *)
Lemma num_leds_step_spec (num : Z) (cfg : segment) :
  let r := num_leds_step num cfg in
  num <= r /\
  (forall i, i ∈ leds cfg -> i < r) /\
  (r = num \/ exists i, i ∈ leds cfg /\ r = i + 1).
Proof.
  unfold num_leds_step. destruct (leds cfg) as [|x l] eqn:E; simpl.
  - split; [lia|]. split; [intros i Hi; inversion Hi | now left].
  - destruct (py_max_spec l x) as (H1 & H2 & H3).
    assert (Hall : forall i, i ∈ x :: l -> i <= Py.max x l).
    { intros i Hi. apply elem_of_cons in Hi as [-> | Hi]; auto. }
    destruct (Py.max x l + 1 >? num) eqn:G.
    + apply Z.gtb_lt in G. split; [lia|]. split.
      * intros i Hi. specialize (Hall i Hi). lia.
      * right. exists (Py.max x l). split; [exact H3 | reflexivity].
    + rewrite Z.gtb_ltb in G. apply Z.ltb_ge in G.
      split; [lia|]. split.
      * intros i Hi. specialize (Hall i Hi). lia.
      * now left.
Qed.

Lemma num_leds_fold_spec (cfgs : list segment) (num : Z) :
  let r := fold_left num_leds_step cfgs num in
  num <= r /\
  (forall i, i ∈ all_leds cfgs -> i < r) /\
  (r = num \/ exists i, i ∈ all_leds cfgs /\ r = i + 1).
Proof.
  revert num. induction cfgs as [|cfg cfgs IH]; intros num; simpl.
  - split; [lia|]. split; [intros i Hi; inversion Hi | now left].
  - destruct (num_leds_step_spec num cfg) as (S1 & S2 & S3).
    destruct (IH (num_leds_step num cfg)) as (H1 & H2 & H3).
    unfold all_leds in *. simpl.
    split; [lia|]. split.
    + intros i Hi. apply elem_of_app in Hi as [Hi | Hi].
      * specialize (S2 i Hi). lia.
      * auto.
    + destruct H3 as [E | (i & Hi & E)].
      * rewrite E. destruct S3 as [E' | (i & Hi & E')].
        -- now left.
        -- right. exists i. split; [apply elem_of_app; now left | exact E'].
      * right. exists i. split; [apply elem_of_app; now right | exact E].
Qed.

Lemma num_leds_nonneg (cfgs : list segment) : 0 <= num_leds cfgs.
Proof. apply (num_leds_fold_spec cfgs 0). Qed.

Lemma num_leds_above (cfgs : list segment) (i : Z) :
  i ∈ all_leds cfgs -> i < num_leds cfgs.
Proof. apply (num_leds_fold_spec cfgs 0). Qed.

(** C9.  When the segments hold at least one index and all indices are
    strip positions (not negative), the derived strip length is one plus
    the largest index of all segments, and every index lies in
    [0, StripLength).  The upper bound holds for any configuration.  The
    reference configuration lists exactly the positions 0 to 170 and its
    strip length is 171. *)
Theorem num_leds_one_plus_max (cfgs : list segment) :
  all_leds cfgs <> [] ->
  (forall i, i ∈ all_leds cfgs -> 0 <= i) ->
  (exists m, m ∈ all_leds cfgs /\
             (forall i, i ∈ all_leds cfgs -> i <= m) /\
             num_leds cfgs = m + 1) /\
  (forall i, i ∈ all_leds cfgs -> 0 <= i < num_leds cfgs) /\
  (length letter_configs = 9%nat /\
   Forall (fun cfg => length (leds cfg) = 19%nat) letter_configs /\
   all_leds letter_configs = Py.range 0 171 /\
   NUM_LEDS = 171).
Proof.
  intros Hne Hpos.
  destruct (num_leds_fold_spec cfgs 0) as (H1 & H2 & H3).
  fold (num_leds cfgs) in H1, H2, H3.
  split; [|split].
  - destruct H3 as [E | (m & Hm & E)].
    + destruct (all_leds cfgs) as [|i l] eqn:El; [congruence|].
      assert (Hi : i ∈ i :: l) by left.
      specialize (H2 i Hi). specialize (Hpos i Hi). lia.
    + exists m. split; [exact Hm|]. split; [|exact E].
      intros i Hi. specialize (H2 i Hi). lia.
  - intros i Hi. split; [apply Hpos, Hi | apply H2, Hi].
  - split; [reflexivity|]. split; [|split; reflexivity].
    repeat constructor.
Qed.

Lemma num_leds_one_plus_max_witness :
  0 <= 2 < num_leds [ {| letter := "A"; leds := [4; 0] |};
                      {| letter := "W"; leds := [] |};
                      {| letter := "R"; leds := [2] |} ].
Proof.
  set (cfgs := [ {| letter := "A"; leds := [4; 0] |};
                 {| letter := "W"; leds := [] |};
                 {| letter := "R"; leds := [2] |} ]).
  assert (Hne : all_leds cfgs <> []) by discriminate.
  assert (Hpos : forall i, i ∈ all_leds cfgs -> 0 <= i).
  { intros i Hi. vm_compute in Hi.
    repeat (apply elem_of_cons in Hi as [-> | Hi]; [lia|]).
    inversion Hi. }
  destruct (num_leds_one_plus_max cfgs Hne Hpos) as (_ & Hin & _).
  apply Hin. vm_compute. right; right; left.
Defined.

(** ** The pixel buffer *)

Lemma np_set_position (np : list color) (i : Z) (c : color) :
  0 <= i < Z.of_nat (length np) ->
  np_set np i c = Some (<[Z.to_nat i := c]> np).
Proof.
  intros Hi. unfold np_set, np_index.
  destruct (Z.leb_spec 0 i); [|lia].
  destruct (Z.ltb_spec i (Z.of_nat (length np))); [|lia].
  reflexivity.
Qed.

(** A loop of assignments at valid positions succeeds, keeps the length,
    puts [f k] at every listed position [k] and leaves the others alone. *)
Lemma set_each_spec (f : Z -> color) (idxs : list Z) (np : list color) :
  (forall i, i ∈ idxs -> 0 <= i < Z.of_nat (length np)) ->
  exists np', set_each f idxs np = Some np' /\
              length np' = length np /\
              forall k : nat,
                (Z.of_nat k ∈ idxs -> np' !! k = Some (f (Z.of_nat k))) /\
                (Z.of_nat k ∉ idxs -> np' !! k = np !! k).
Proof.
  revert np. induction idxs as [|i rest IH]; intros np Hvalid; simpl.
  - exists np. split; [reflexivity|]. split; [reflexivity|].
    intros k. split; [intros Hk; inversion Hk | reflexivity].
  - assert (Hi : 0 <= i < Z.of_nat (length np)) by (apply Hvalid; left).
    rewrite (np_set_position np i (f i) Hi). simpl.
    set (np1 := <[Z.to_nat i := f i]> np).
    assert (Hlen1 : length np1 = length np) by apply length_insert.
    destruct (IH np1) as (np' & Hrun & Hlen & Hk).
    { intros j Hj. rewrite Hlen1. apply Hvalid. now right. }
    exists np'. split; [exact Hrun|]. split; [congruence|].
    intros k. destruct (Hk k) as [Hin Hout]. split.
    + intros Hmem. destruct (decide (Z.of_nat k ∈ rest)) as [Hr | Hr]; [auto|].
      apply elem_of_cons in Hmem as [E | Hmem]; [|contradiction].
      rewrite (Hout Hr). subst i np1. rewrite Nat2Z.id.
      apply list_lookup_insert_eq. lia.
    + intros Hmem. apply not_elem_of_cons in Hmem as [Hne Hr].
      rewrite (Hout Hr). subst np1.
      apply list_lookup_insert_ne. lia.
Qed.

(** ** Mode 2: wave effect *)

Lemma wave_phase_range (current_time : Z) :
  (0 <= Wave.phase current_time < 1)%Q.
Proof.
  unfold Wave.phase, Wave.wave_period_ms.
  pose proof (Z.mod_pos_bound current_time 10000 eq_refl) as [Hlo Hhi].
  set (r := current_time mod 10000) in *.
  split.
  - apply Qle_shift_div_l; [reflexivity|].
    rewrite Qmult_0_l. change 0%Q with (inject_Z 0). now rewrite <- Zle_Qle.
  - apply Qlt_shift_div_r; [reflexivity|].
    rewrite Qmult_1_l. now rewrite <- Zlt_Qlt.
Qed.

Lemma wave_phase_zero (current_time : Z) :
  (Wave.phase current_time == 0)%Q <-> current_time mod 10000 = 0.
Proof.
  unfold Wave.phase, Wave.wave_period_ms.
  set (r := current_time mod 10000).
  split.
  - intros E.
    assert (E' : (inject_Z r == 0)%Q).
    { assert (H0 : (inject_Z r == inject_Z r / inject_Z 10000 * inject_Z 10000)%Q)
        by (field; discriminate).
      rewrite E in H0. rewrite H0. ring. }
    apply (inject_Z_injective r 0). exact E'.
  - intros ->. reflexivity.
Qed.

(** What the loop body computes for one LED. *)
Lemma wave_led_color_spec (num current_time i : Z) :
  let wp := Wave.wave_pos num current_time in
  let distance := Qabs (inject_Z i - wp) in
  ((3 <= distance)%Q -> Wave.led_color num current_time i = Wave.warm_white) /\
  ((distance < 3)%Q ->
   Wave.led_color num current_time i =
     blend_color Wave.warm_white (Wave.wave_color wp) (1 - distance / 3)) /\
  ((distance == 0)%Q -> Wave.led_color num current_time i = Wave.wave_color wp).
Proof.
  intros wp distance. unfold Wave.led_color, Py.abs, Wave.threshold.
  fold wp. fold distance. change (inject_Z 3) with 3%Q.
  split; [|split].
  - intros H. apply ltb_nlt in H. now rewrite H.
  - intros H. apply ltb_lt in H. now rewrite H.
  - intros H.
    assert (Hlt : (distance < 3)%Q) by (rewrite H; reflexivity).
    apply ltb_lt in Hlt. rewrite Hlt.
    rewrite (blend_color_proper _ _ (1 - distance / 3) 1).
    + apply blend_color_one.
    + rewrite H. reflexivity.
Qed.

(** C2, as stated, fails: the phase is taken from the tick counter, not
    from the time elapsed since the mode was entered.  Entered at tick
    2500, the first frame (elapsed time 0) of the 171-LED strip has its wave
    at position 42.75, not at 0. *)
Lemma wave_pos_not_from_elapsed :
  (Wave.wave_pos_after NUM_LEDS 2500 0 == 171 # 4)%Q /\
  (Spec.wave_pos NUM_LEDS 0 == 0)%Q /\
  ~ (Wave.wave_pos_after NUM_LEDS 2500 0 == Spec.wave_pos NUM_LEDS 0)%Q.
Proof.
  split; [reflexivity|]. split; [reflexivity|]. discriminate.
Qed.

(** C2, amended.  The wave phase is [(T mod 10000) / 10000] for the tick
    counter value [T] in milliseconds, a number in [0,1); the wave position
    [phase * StripLength] repeats every 10000 ticks and, on a strip that is
    not empty, is 0 exactly at the ticks [T] with [T mod 10000 = 0].  In
    terms of the time elapsed since the mode was entered at tick
    [start_time], it is the position the specification gives for
    [start_time + elapsed]; the two agree when [start_time] is a multiple of
    10000. *)
Theorem wave_pos_from_ticks (num current_time start_time elapsed : Z) :
  0 < num ->
  (0 <= Wave.phase current_time < 1)%Q /\
  Wave.wave_pos num (current_time + 10000) = Wave.wave_pos num current_time /\
  ((Wave.wave_pos num current_time == 0)%Q <-> current_time mod 10000 = 0) /\
  (Wave.wave_pos_after num start_time elapsed ==
     Spec.wave_pos num (start_time + elapsed))%Q /\
  (start_time mod 10000 = 0 ->
   (Wave.wave_pos_after num start_time elapsed == Spec.wave_pos num elapsed)%Q).
Proof.
  intros Hnum.
  split; [apply wave_phase_range|].
  split.
  { unfold Wave.wave_pos, Wave.phase, Wave.wave_period_ms.
    replace ((current_time + 10000) mod 10000) with (current_time mod 10000);
      [reflexivity|].
    replace (current_time + 10000) with (current_time + 1 * 10000) by lia.
    now rewrite Z.mod_add. }
  split.
  { rewrite <- wave_phase_zero. unfold Wave.wave_pos.
    assert (Hn : (0 < inject_Z num)%Q)
      by (change 0%Q with (inject_Z 0); now rewrite <- Zlt_Qlt).
    split.
    - intros E. destruct (Qmult_integral _ _ E) as [E' | E']; [exact E'|].
      rewrite E' in Hn. now apply Qlt_irrefl in Hn.
    - intros ->. ring. }
  split.
  { reflexivity. }
  intros Hstart.
  unfold Wave.wave_pos_after, Wave.wave_pos, Wave.phase, Spec.wave_pos,
    Wave.wave_period_ms.
  replace ((start_time + elapsed) mod 10000) with (elapsed mod 10000);
    [reflexivity|].
  rewrite (Z.add_mod start_time elapsed 10000) by lia.
  rewrite Hstart, Z.add_0_l. now rewrite Z.mod_mod by lia.
Qed.

Lemma wave_pos_from_ticks_witness :
  (Wave.wave_pos 171 20000 == 0)%Q.
Proof.
  assert (Hnum : 0 < 171) by lia.
  destruct (wave_pos_from_ticks 171 20000 0 0 Hnum) as (_ & _ & Hzero & _).
  apply Hzero. reflexivity.
Defined.

(** *** The wave frame on binary64 numbers *)

(** Comparing in the other direction gives the opposite answer. *)
Lemma SFcompare_antisym (x y : SpecFloat.spec_float) :
  SpecFloat.SFcompare y x = option_map CompOpp (SpecFloat.SFcompare x y).
Proof.
  destruct x as [sx | sx | | sx mx ex], y as [sy | sy | | sy my ey];
    try destruct sx; try destruct sy; simpl; try reflexivity.
  - rewrite (Z.compare_antisym ey ex).
    destruct (ey ?= ex) eqn:E; simpl; try reflexivity.
    rewrite (Pos.compare_cont_antisym mx my Eq). reflexivity.
  - rewrite (Z.compare_antisym ey ex).
    destruct (ey ?= ex) eqn:E; simpl; try reflexivity.
    rewrite (Pos.compare_cont_antisym mx my Eq). reflexivity.
Qed.

(** [y <= x] excludes [x < y], also on infinities and NaN. *)
Lemma b64_leb_not_ltb (x y : PrimFloat.float) :
  PrimFloat.leb y x = true -> PrimFloat.ltb x y = false.
Proof.
  rewrite FloatAxioms.leb_spec, FloatAxioms.ltb_spec.
  unfold SpecFloat.SFleb, SpecFloat.SFltb.
  rewrite (SFcompare_antisym (FloatOps.Prim2SF x) (FloatOps.Prim2SF y)).
  destruct (SpecFloat.SFcompare (FloatOps.Prim2SF x) (FloatOps.Prim2SF y))
    as [[| |]|]; simpl; congruence.
Qed.

Lemma b64_set_each_some (f : Z -> option color) (idxs : list Z) :
  forall np np', B64.set_each f idxs np = Some np' ->
                 forall i, i ∈ idxs -> is_Some (f i).
Proof.
  induction idxs as [|j rest IH]; intros np np' Hrun i Hi.
  - inversion Hi.
  - simpl in Hrun.
    destruct (f j) as [c|] eqn:Ej; simpl in Hrun; [|discriminate].
    destruct (np_set np j c) as [np1|] eqn:Es; simpl in Hrun; [|discriminate].
    apply elem_of_cons in Hi as [-> | Hi].
    + rewrite Ej. eauto.
    + eapply IH; eauto.
Qed.

(** When no colour computation raises, the loop is the plain one. *)
Lemma b64_set_each_total (f : Z -> option color) (g : Z -> color)
  (idxs : list Z) :
  forall np, (forall i, i ∈ idxs -> f i = Some (g i)) ->
             B64.set_each f idxs np = set_each g idxs np.
Proof.
  induction idxs as [|j rest IH]; intros np Hf; simpl; [reflexivity|].
  rewrite (Hf j) by left. simpl.
  destruct (np_set np j (g j)) as [np1|]; simpl; [|reflexivity].
  apply IH. intros i Hi. apply Hf. now right.
Qed.

(** With the colour computations of the listed positions all defined, the
    frame loop writes each of them. *)
Lemma b64_set_each_range (f : Z -> option color) (num : Z) (np : list color) :
  Z.of_nat (length np) = num ->
  (forall i, 0 <= i < num -> is_Some (f i)) ->
  exists np', B64.set_each f (Py.range 0 num) np = Some np' /\
              length np' = length np /\
              forall i, 0 <= i < num -> np' !! Z.to_nat i = f i.
Proof.
  intros Hlen Hsome.
  set (g := fun i => default Wave.warm_white (f i)).
  assert (Hfg : forall i, i ∈ Py.range 0 num -> f i = Some (g i)).
  { intros i Hi. unfold Py.range in Hi. apply elem_of_seqZ in Hi.
    destruct (Hsome i) as [c Hc]; [lia|]. unfold g. now rewrite Hc. }
  rewrite (b64_set_each_total f g _ np Hfg).
  destruct (set_each_spec g (Py.range 0 num) np) as (np' & Hrun & Hlen' & Hk).
  { intros i Hi. unfold Py.range in Hi. apply elem_of_seqZ in Hi. lia. }
  exists np'. split; [exact Hrun|]. split; [exact Hlen'|].
  intros i Hi. destruct (Hk (Z.to_nat i)) as [Hin _].
  rewrite Z2Nat.id in Hin by lia.
  rewrite Hin by (unfold Py.range; apply elem_of_seqZ; lia).
  symmetry. apply Hfg. unfold Py.range. apply elem_of_seqZ. lia.
Qed.

(** A frame that completes has written, at every position, the colour the
    loop body computes for it. *)
Lemma b64_frame_pixels (num current_time : Z) (np np' : list color) :
  Z.of_nat (length np) = num ->
  B64.frame num current_time np = Some np' ->
  length np' = length np /\
  exists k, B64.int (B64.wave_pos num current_time) = Some k /\
            forall i, 0 <= i < num ->
              np' !! Z.to_nat i =
                B64.led_color (B64.wave_pos num current_time)
                  (Wave.wave_colors !!! Z.to_nat (k mod 3)) i.
Proof.
  intros Hlen Hrun. unfold B64.frame, B64.wave_color in Hrun.
  destruct (B64.int (B64.wave_pos num current_time)) as [k|] eqn:Ek;
    simpl in Hrun; [|discriminate].
  set (wp := B64.wave_pos num current_time) in *.
  set (wc := Wave.wave_colors !!! Z.to_nat (k mod 3)) in *.
  assert (Hsome : forall i, 0 <= i < num -> is_Some (B64.led_color wp wc i)).
  { intros i Hi. eapply b64_set_each_some; [exact Hrun|].
    unfold Py.range. apply elem_of_seqZ. lia. }
  destruct (b64_set_each_range (B64.led_color wp wc) num np Hlen Hsome)
    as (np'' & Hrun'' & Hlen'' & Hpix).
  assert (E : Some np'' = Some np') by (rewrite <- Hrun''; exact Hrun).
  injection E as ->.
  split; [exact Hlen''|]. exists k. split; [reflexivity | exact Hpix].
Qed.

(** On the wave itself the blend is the wave colour. *)
Lemma b64_led_color_on_wave (wp : PrimFloat.float) (wc : color) (i : Z) :
  wc ∈ Wave.wave_colors ->
  B64.distance wp i = PrimFloat.zero ->
  B64.led_color wp wc i = Some wc.
Proof.
  intros Hwc Hd. unfold B64.led_color. rewrite Hd.
  unfold Wave.wave_colors in Hwc. rewrite !elem_of_cons, elem_of_nil in Hwc.
  destruct Hwc as [-> | [-> | [-> | []]]]; vm_compute; reflexivity.
Qed.

Lemma wave_colors_lookup (k : Z) :
  Wave.wave_colors !!! Z.to_nat (k mod 3) ∈ Wave.wave_colors.
Proof.
  pose proof (Z.mod_pos_bound k 3 eq_refl) as Hb.
  set (j := k mod 3) in *.
  assert (Hj : j = 0 \/ j = 1 \/ j = 2) by lia.
  destruct Hj as [-> | [-> | ->]]; simpl.
  - left.
  - right; left.
  - right; right; left.
Qed.

(** All 10000 frames of the 171-LED strip, run on binary64 numbers. *)
Lemma b64_all_frames_ok :
  forallb (B64.frame_ok (map B64.of_int (seqZ 0 171))) (seqZ 0 10000) = true.
Proof. vm_compute. reflexivity. Qed.

(** What the check of one frame gives for the frame at a tick. *)
Lemma b64_frame_ok_at (current_time : Z) :
  exists k,
    B64.int (B64.wave_pos 171 current_time) = Some k /\ 0 <= k /\
    forall i, 0 <= i < 171 ->
      is_Some (B64.led_color (B64.wave_pos 171 current_time)
                 (Wave.wave_colors !!! Z.to_nat (k mod 3)) i).
Proof.
  pose proof (proj1 (forallb_forall _ _) b64_all_frames_ok) as Hall.
  pose proof (Z.mod_pos_bound current_time 10000 eq_refl) as Hr.
  assert (Hin : In (current_time mod 10000) (seqZ 0 10000)).
  { apply list_elem_of_In, elem_of_seqZ. lia. }
  specialize (Hall _ Hin). unfold B64.frame_ok in Hall.
  change (PrimFloat.mul
            (PrimFloat.div (B64.of_int (current_time mod 10000)) B64.period)
            B64.strip)
    with (B64.wave_pos 171 current_time) in Hall.
  set (wp := B64.wave_pos 171 current_time) in *.
  destruct (B64.int wp) as [k|]; [|discriminate].
  apply andb_prop in Hall as [Hk Hpix]. apply Z.leb_le in Hk.
  pose proof (proj1 (forallb_forall _ _) Hpix) as Hall'.
  exists k. split; [reflexivity|]. split; [exact Hk|].
  intros i Hi.
  assert (Hfi : In (B64.of_int i) (map B64.of_int (seqZ 0 171))).
  { apply in_map, list_elem_of_In, elem_of_seqZ. lia. }
  specialize (Hall' _ Hfi). unfold B64.pixel_ok in Hall'.
  unfold B64.led_color, B64.factor, B64.distance.
  change (B64.of_int Wave.threshold) with B64.three.
  destruct (PrimFloat.ltb (PrimFloat.abs (PrimFloat.sub (B64.of_int i) wp))
              B64.three); [|eauto].
  destruct (B64.blend_color Wave.warm_white
              (Wave.wave_colors !!! Z.to_nat (k mod 3))
              (PrimFloat.sub (B64.of_int 1)
                 (PrimFloat.div
                    (PrimFloat.abs (PrimFloat.sub (B64.of_int i) wp))
                    B64.three)));
    [eauto | discriminate].
Qed.

(** On the strip of the script no conversion of a frame raises, at any
    tick. *)
Lemma b64_frame_strip (current_time : Z) (np : list color) :
  Z.of_nat (length np) = 171 ->
  exists np' k,
    B64.frame 171 current_time np = Some np' /\
    B64.int (B64.wave_pos 171 current_time) = Some k /\ 0 <= k.
Proof.
  intros Hlen.
  destruct (b64_frame_ok_at current_time) as (k & Ek & Hk & Hsome).
  destruct (b64_set_each_range _ 171 np Hlen Hsome) as (np' & Hrun & _ & _).
  exists np', k. split; [|split; [exact Ek | exact Hk]].
  unfold B64.frame, B64.wave_color. rewrite Ek.
  change (Z.of_nat (length Wave.wave_colors)) with 3. exact Hrun.
Qed.

(** The values of two frames, as the script computes them. *)
Example b64_frame_values :
  B64.wave_pos 171 20000 = PrimFloat.zero /\
  B64.led_color (B64.wave_pos 171 20000) (0, 0, 255) 1 = Some (84, 81, 246) /\
  B64.int (B64.wave_pos 100 2900) = Some 28 /\
  B64.led_color (B64.wave_pos 100 2900) (0, 255, 0) 26 = Some (254, 244, 228) /\
  B64.led_color (B64.wave_pos 100 2900) (0, 255, 0) 25 = Some Wave.warm_white.
Proof. repeat split; vm_compute; reflexivity. Qed.

(** C8.  In a frame of the wave mode over a buffer of [num] pixels, with
    the numbers the script computes in binary64 and
    [distance = |i - wave_pos|]: an LED at distance 3 or more is set to
    warm white (255,244,229); an LED at distance below 3 is set to the
    blend of warm white toward the frame's wave colour with factor
    [1 - distance / 3]; at distance 0 this is the wave colour itself.  The
    wave colour is entry [int(wave_pos) mod 3] of the palette blue, green,
    yellow.  On the 171-LED strip of the script the frame completes at
    every tick and [int(wave_pos)] is the floor of a non-negative
    position. *)
Theorem wave_frame_colors (num current_time : Z) (np : list color) :
  Z.of_nat (length np) = num ->
  let wp := B64.wave_pos num current_time in
  Wave.warm_white = (255, 244, 229) /\
  Wave.wave_colors = [(0, 0, 255); (0, 255, 0); (255, 255, 0)] /\
  (num = NUM_LEDS ->
   exists np' k, B64.frame num current_time np = Some np' /\
                 B64.int wp = Some k /\ 0 <= k) /\
  (forall np',
     B64.frame num current_time np = Some np' ->
     length np' = length np /\
     exists k wave_color,
       B64.int wp = Some k /\
       wave_color = Wave.wave_colors !!! Z.to_nat (k mod 3) /\
       wave_color ∈ Wave.wave_colors /\
       forall i, 0 <= i < num ->
         let distance := PrimFloat.abs (PrimFloat.sub (B64.of_int i) wp) in
         (PrimFloat.leb (B64.of_int 3) distance = true ->
          np' !! Z.to_nat i = Some Wave.warm_white) /\
         (PrimFloat.ltb distance (B64.of_int 3) = true ->
          exists c,
            B64.blend_color Wave.warm_white wave_color
              (PrimFloat.sub (B64.of_int 1)
                 (PrimFloat.div distance (B64.of_int 3))) = Some c /\
            np' !! Z.to_nat i = Some c) /\
         (distance = PrimFloat.zero -> np' !! Z.to_nat i = Some wave_color)).
Proof.
  intros Hlen wp.
  split; [reflexivity|]. split; [reflexivity|]. split.
  - intros ->. change NUM_LEDS with 171 in *.
    apply b64_frame_strip, Hlen.
  - intros np' Hrun.
    destruct (b64_frame_pixels num current_time np np' Hlen Hrun)
      as (Hlen' & k & Hk & Hpix).
    split; [exact Hlen'|].
    exists k, (Wave.wave_colors !!! Z.to_nat (k mod 3)).
    split; [exact Hk|]. split; [reflexivity|].
    split; [apply wave_colors_lookup|].
    intros i Hi distance. fold wp in Hpix.
    assert (Hs : is_Some (np' !! Z.to_nat i))
      by (apply lookup_lt_is_Some; lia).
    rewrite (Hpix i Hi) in Hs. rewrite (Hpix i Hi).
    unfold B64.led_color, B64.factor, B64.distance in *.
    change (B64.of_int Wave.threshold) with (B64.of_int 3) in *.
    fold distance in Hs. fold distance.
    split; [|split].
    + intros Hfar.
      now rewrite (b64_leb_not_ltb distance (B64.of_int 3) Hfar).
    + intros Hnear. rewrite Hnear in Hs. rewrite Hnear.
      destruct Hs as [c Hc]. exists c. split; exact Hc.
    + intros Hzero.
      pose proof (b64_led_color_on_wave wp _ i (wave_colors_lookup k) Hzero) as H.
      unfold B64.led_color, B64.factor, B64.distance in H.
      change (B64.of_int Wave.threshold) with (B64.of_int 3) in H. exact H.
Qed.

Lemma wave_frame_colors_witness :
  exists np',
    B64.frame 171 20000 (replicate 171 (0, 0, 0)) = Some np' /\
    np' !! 0%nat = Some (0, 0, 255) /\
    np' !! 1%nat = Some (84, 81, 246) /\
    np' !! 3%nat = Some Wave.warm_white.
Proof.
  assert (Hlen : Z.of_nat (length (replicate 171 (0, 0, 0) : list color)) = 171)
    by reflexivity.
  destruct (wave_frame_colors 171 20000 (replicate 171 (0, 0, 0)) Hlen)
    as (_ & _ & Hruns & Hpix).
  destruct (Hruns eq_refl) as (np' & k0 & Hrun & _).
  exists np'. split; [exact Hrun|].
  destruct (Hpix np' Hrun) as (_ & k & wc & Hk & Hwc & _ & Hled).
  assert (E : k = 0) by (vm_compute in Hk; congruence).
  subst k. change (Wave.wave_colors !!! Z.to_nat (0 mod 3)) with (0, 0, 255) in Hwc.
  subst wc.
  split; [|split].
  - destruct (Hled 0) as (_ & _ & H0); [lia|]. apply H0. vm_compute. reflexivity.
  - destruct (Hled 1) as (_ & H1 & _); [lia|].
    destruct H1 as (c & Hc & Hnp); [vm_compute; reflexivity|].
    vm_compute in Hc. injection Hc as <-. exact Hnp.
  - destruct (Hled 3) as (H3 & _ & _); [lia|]. apply H3. vm_compute. reflexivity.
Defined.

(** ** Mode 1: fade letters *)

Lemma fade_int_floor (x : R) (z : Z) :
  (0 <= x)%R -> (IZR z <= x < IZR z + 1)%R -> Fade.int x = z.
Proof.
  intros H0 Hz. unfold Fade.int.
  destruct (Rle_dec 0 x) as [_ | Hn]; [|contradiction].
  now apply Zfloor_eq.
Qed.

Lemma fade_int_IZR (z : Z) : Fade.int (IZR z) = z.
Proof.
  unfold Fade.int. destruct (Rle_dec 0 (IZR z)) as [_ | _].
  - apply ZfloorZ.
  - unfold Zceil. rewrite ZfloorNZ. lia.
Qed.

Lemma brightness_range (t phase : R) : (0 <= Fade.brightness t phase <= 1)%R.
Proof.
  unfold Fade.brightness.
  pose proof (SIN_bound (2 * PI * (t / Fade.period) + phase)) as [Hlo Hhi].
  lra.
Qed.

Lemma brightness_start : Fade.brightness 0 0 = (1 / 2)%R.
Proof.
  unfold Fade.brightness, Fade.period.
  replace (2 * PI * (0 / 5) + 0)%R with 0%R by field.
  rewrite sin_0. field.
Qed.



(** Half brightness on a channel that is 0 or 255. *)
Lemma fade_int_half_255 : Fade.int (255 * (1 / 2)) = 127.
Proof. apply fade_int_floor; lra. Qed.

Lemma fade_int_half_0 : Fade.int (0 * (1 / 2)) = 0.
Proof. apply fade_int_floor; lra. Qed.

Lemma color_map_A : Fade.color_map !! "A" = Some (255, 0, 0).
Proof. reflexivity. Qed.

Lemma color_map_W : Fade.color_map !! "W" = Some (0, 255, 0).
Proof. reflexivity. Qed.

Lemma letter_params_lookup (cfgs : list segment) (uniform : nat -> R)
  (k : nat) (p : Fade.letter_param) :
  Fade.letter_params cfgs uniform !! k = Some p ->
  exists cfg, cfgs !! k = Some cfg /\
              Fade.base_color p = default (255, 255, 255) (Fade.color_map !! letter cfg) /\
              Fade.phase_offset p = uniform k.
Proof.
  unfold Fade.letter_params. rewrite list_lookup_imap.
  destruct (cfgs !! k) as [cfg|]; simpl; [|discriminate].
  intros [= <-]. exists cfg. auto.
Qed.

Lemma all_leds_cons (cfg : segment) (cfgs : list segment) :
  all_leds (cfg :: cfgs) = leds cfg ++ all_leds cfgs.
Proof. reflexivity. Qed.

Lemma elem_of_all_leds (cfgs : list segment) (k : nat) (cfg : segment) (led : Z) :
  cfgs !! k = Some cfg -> led ∈ leds cfg -> led ∈ all_leds cfgs.
Proof.
  revert k. induction cfgs as [|c rest IH]; intros k Hc Hin.
  - rewrite lookup_nil in Hc. discriminate.
  - rewrite all_leds_cons. apply elem_of_app. destruct k as [|k]; simpl in Hc.
    + injection Hc as ->. now left.
    + right. eapply IH; eauto.
Qed.

Lemma all_leds_elem_of (cfgs : list segment) (led : Z) :
  led ∈ all_leds cfgs ->
  exists k cfg, cfgs !! k = Some cfg /\ led ∈ leds cfg.
Proof.
  induction cfgs as [|c rest IH]; intros Hin.
  - inversion Hin.
  - rewrite all_leds_cons in Hin. apply elem_of_app in Hin as [Hin | Hin].
    + exists 0%nat, c. split; [reflexivity | exact Hin].
    + destruct (IH Hin) as (k & cfg & Hc & Hl).
      exists (S k), cfg. split; [exact Hc | exact Hl].
Qed.

(** The loop over the letters, started at position [idx] of the parameter
    list: it succeeds when the indices are valid positions and every letter
    has its parameters; positions outside all segments are left alone, a
    position inside a segment ends with the colour of a segment holding it,
    and with the colour of its own segment when no index is repeated. *)
Lemma update_letters_spec (params : list Fade.letter_param) (t : R)
  (cfgs : list segment) :
  forall (idx : nat) (np : list color),
    (forall i, i ∈ all_leds cfgs -> 0 <= i < Z.of_nat (length np)) ->
    (forall k, (k < length cfgs)%nat -> is_Some (params !! (idx + k)%nat)) ->
    exists np',
      Fade.update_letters params t idx cfgs np = Some np' /\
      length np' = length np /\
      (forall j : nat, Z.of_nat j ∉ all_leds cfgs -> np' !! j = np !! j) /\
      (forall j : nat, Z.of_nat j ∈ all_leds cfgs ->
         exists k cfg p,
           cfgs !! k = Some cfg /\ params !! (idx + k)%nat = Some p /\
           Z.of_nat j ∈ leds cfg /\
           np' !! j = Some (Fade.letter_color p t)) /\
      (NoDup (all_leds cfgs) ->
       forall k cfg p (j : nat),
         cfgs !! k = Some cfg -> params !! (idx + k)%nat = Some p ->
         Z.of_nat j ∈ leds cfg ->
         np' !! j = Some (Fade.letter_color p t)).
Proof.
  induction cfgs as [|cfg rest IH]; intros idx np Hvalid Hparams.
  - exists np. simpl. split; [reflexivity|]. split; [reflexivity|].
    split; [reflexivity|]. split.
    + intros j Hj. inversion Hj.
    + intros _ k cfg p j Hk. rewrite lookup_nil in Hk. discriminate.
  - destruct (Hparams 0%nat) as [p Hp]; [simpl; lia|].
    rewrite Nat.add_0_r in Hp.
    destruct (set_each_spec (fun _ => Fade.letter_color p t) (leds cfg) np)
      as (np1 & Hrun1 & Hlen1 & Hk1).
    { intros i Hi. apply Hvalid. rewrite all_leds_cons.
      apply elem_of_app. now left. }
    destruct (IH (S idx) np1) as (np' & Hrun & Hlen & Hout & Hsome & Huniq).
    { intros i Hi. rewrite Hlen1. apply Hvalid. rewrite all_leds_cons.
      apply elem_of_app. now right. }
    { intros k Hk. replace (S idx + k)%nat with (idx + S k)%nat by lia.
      apply Hparams. simpl. lia. }
    exists np'. split.
    { simpl. rewrite Hp. simpl. rewrite Hrun1. simpl. exact Hrun. }
    split; [congruence|].
    split; [|split].
    + intros j Hj. rewrite all_leds_cons in Hj.
      apply not_elem_of_app in Hj as [Hj1 Hj2].
      rewrite (Hout j Hj2). apply (Hk1 j), Hj1.
    + intros j Hj. rewrite all_leds_cons in Hj.
      destruct (decide (Z.of_nat j ∈ all_leds rest)) as [Hr | Hr].
      * destruct (Hsome j Hr) as (k & cfg' & p' & Hc & Hp' & Hin & Hnp).
        exists (S k), cfg', p'. split; [exact Hc|]. split; [|split; assumption].
        replace (idx + S k)%nat with (S idx + k)%nat by lia. exact Hp'.
      * apply elem_of_app in Hj as [Hj | Hj]; [|contradiction].
        exists 0%nat, cfg, p. split; [reflexivity|].
        split; [now rewrite Nat.add_0_r|]. split; [exact Hj|].
        rewrite (Hout j Hr). apply (Hk1 j), Hj.
    + intros Hnd k cfg' p' j Hc Hp' Hin.
      rewrite all_leds_cons in Hnd. apply NoDup_app in Hnd as (_ & Hdisj & Hnd).
      destruct k as [|k]; simpl in Hc.
      * injection Hc as <-. rewrite Nat.add_0_r, Hp in Hp'. injection Hp' as <-.
        rewrite (Hout j (Hdisj _ Hin)). apply (Hk1 j), Hin.
      * apply (Huniq Hnd k cfg' p' j Hc); [|exact Hin].
        replace (S idx + k)%nat with (idx + S k)%nat by lia. exact Hp'.
Qed.

(** The frame of the fade mode with the parameters made by the set-up
    loop. *)
Lemma fade_frame_spec (cfgs : list segment) (uniform : nat -> R) (t : R)
  (np : list color) :
  (forall i, i ∈ all_leds cfgs -> 0 <= i < Z.of_nat (length np)) ->
  exists np',
    Fade.frame cfgs (Fade.letter_params cfgs uniform) t np = Some np' /\
    length np' = length np /\
    (forall j : nat, Z.of_nat j ∉ all_leds cfgs -> np' !! j = np !! j) /\
    (forall j : nat, Z.of_nat j ∈ all_leds cfgs ->
       exists k cfg,
         cfgs !! k = Some cfg /\ Z.of_nat j ∈ leds cfg /\
         np' !! j =
           Some (Fade.scaled_color
                   (default (255, 255, 255) (Fade.color_map !! letter cfg))
                   (Fade.brightness t (uniform k)))) /\
    (NoDup (all_leds cfgs) ->
     forall k cfg (j : nat),
       cfgs !! k = Some cfg -> Z.of_nat j ∈ leds cfg ->
       np' !! j =
         Some (Fade.scaled_color
                 (default (255, 255, 255) (Fade.color_map !! letter cfg))
                 (Fade.brightness t (uniform k)))).
Proof.
  intros Hvalid.
  destruct (update_letters_spec (Fade.letter_params cfgs uniform) t cfgs 0 np Hvalid)
    as (np' & Hrun & Hlen & Hout & Hsome & Huniq).
  { intros k Hk. apply lookup_lt_is_Some. unfold Fade.letter_params.
    rewrite length_imap. simpl. exact Hk. }
  exists np'. split; [exact Hrun|]. split; [exact Hlen|].
  split; [exact Hout|]. split.
  - intros j Hj. destruct (Hsome j Hj) as (k & cfg & p & Hc & Hp & Hin & Hnp).
    simpl in Hp. destruct (letter_params_lookup _ _ _ _ Hp) as (cfg' & Hc' & Hb & Hph).
    assert (cfg' = cfg) by congruence. subst cfg'.
    exists k, cfg. split; [exact Hc|]. split; [exact Hin|].
    rewrite Hnp. unfold Fade.letter_color. now rewrite Hb, Hph.
  - intros Hnd k cfg j Hc Hin.
    assert (Hp : is_Some (Fade.letter_params cfgs uniform !! k)).
    { apply lookup_lt_is_Some. unfold Fade.letter_params. rewrite length_imap.
      apply lookup_lt_Some in Hc. exact Hc. }
    destruct Hp as [p Hp].
    destruct (letter_params_lookup _ _ _ _ Hp) as (cfg' & Hc' & Hb & Hph).
    assert (cfg' = cfg) by congruence. subst cfg'.
    rewrite (Huniq Hnd k cfg p j Hc Hp Hin).
    unfold Fade.letter_color. now rewrite Hb, Hph.
Qed.



Lemma scaled_color_half_red :
  Fade.scaled_color (255, 0, 0) (1 / 2) = (127, 0, 0).
Proof.
  unfold Fade.scaled_color. now rewrite fade_int_half_255, fade_int_half_0.
Qed.

Lemma scaled_color_half_green :
  Fade.scaled_color (0, 255, 0) (1 / 2) = (0, 127, 0).
Proof.
  unfold Fade.scaled_color. now rewrite fade_int_half_255, fade_int_half_0.
Qed.

(** A frame of the wave mode assigns every pixel of the buffer. *)
Lemma wave_frame_spec (num current_time : Z) (np : list color) :
  Z.of_nat (length np) = num ->
  exists np', Wave.frame num current_time np = Some np' /\
              length np' = length np /\
              forall i, 0 <= i < num ->
                        np' !! Z.to_nat i = Some (Wave.led_color num current_time i).
Proof.
  intros Hlen.
  destruct (set_each_spec (Wave.led_color num current_time) (Py.range 0 num) np)
    as (np' & Hrun & Hlen' & Hk).
  { intros i Hi. unfold Py.range in Hi. apply elem_of_seqZ in Hi. lia. }
  exists np'. split; [exact Hrun|]. split; [exact Hlen'|].
  intros i Hi. destruct (Hk (Z.to_nat i)) as [Hin _].
  rewrite Z2Nat.id in Hin by lia. apply Hin.
  unfold Py.range. apply elem_of_seqZ. lia.
Qed.

(** C4, as stated, fails: with the segments A = [0] and W = [2] the strip
    has three positions and a frame of the fade mode assigns only
    positions 0 and 2; position 1 keeps the colour (4,5,6) the buffer held
    before the frame. *)
Lemma fade_frame_leaves_gap :
  num_leds [ {| letter := "A"; leds := [0] |}; {| letter := "W"; leds := [2] |} ] = 3 /\
  (1 ∉ all_leds [ {| letter := "A"; leds := [0] |}; {| letter := "W"; leds := [2] |} ]) /\
  Fade.frame
    [ {| letter := "A"; leds := [0] |}; {| letter := "W"; leds := [2] |} ]
    (Fade.letter_params
       [ {| letter := "A"; leds := [0] |}; {| letter := "W"; leds := [2] |} ]
       (fun _ => 0%R))
    0 [(1, 2, 3); (4, 5, 6); (7, 8, 9)]
  = Some [(127, 0, 0); (4, 5, 6); (0, 127, 0)].
Proof.
  set (cfgA := {| letter := "A"; leds := [0] |}).
  set (cfgW := {| letter := "W"; leds := [2] |}).
  set (cfgs := [cfgA; cfgW]).
  set (np := [(1, 2, 3); (4, 5, 6); (7, 8, 9)] : list color).
  assert (Hgap : 1 ∉ all_leds cfgs)
    by (apply (bool_decide_unpack _); vm_compute; exact I).
  split; [reflexivity|]. split; [exact Hgap|].
  assert (Hvalid : forall i, i ∈ all_leds cfgs -> 0 <= i < Z.of_nat (length np)).
  { intros i Hi. vm_compute in Hi.
    repeat (apply elem_of_cons in Hi as [-> | Hi]; [simpl; lia|]).
    inversion Hi. }
  assert (Hnd : NoDup (all_leds cfgs))
    by (apply (bool_decide_unpack _); vm_compute; exact I).
  destruct (fade_frame_spec cfgs (fun _ => 0%R) 0 np Hvalid)
    as (np' & Hrun & Hlen & Hout & _ & Huniq).
  rewrite Hrun. f_equal.
  pose proof (Huniq Hnd 0%nat cfgA 0%nat eq_refl) as H0.
  pose proof (Hout 1%nat Hgap) as H1.
  pose proof (Huniq Hnd 1%nat cfgW 2%nat eq_refl) as H2.
  simpl letter in H0, H2. simpl leds in H0, H2.
  rewrite color_map_A, brightness_start in H0.
  rewrite color_map_W, brightness_start in H2.
  simpl default in H0, H2.
  rewrite scaled_color_half_red in H0. rewrite scaled_color_half_green in H2.
  specialize (H0 ltac:(left)). specialize (H2 ltac:(left)).
  destruct np' as [|a [|b [|c [|d np']]]]; try discriminate Hlen.
  simpl in H0, H1, H2.
  inversion H0; inversion H1; inversion H2; subst; reflexivity.
Qed.

(** C4, amended.  A frame of the fade mode assigns exactly the positions
    listed in the segments: a listed position receives the scaled colour of
    a segment that lists it, and a position that no segment lists keeps the
    colour it had before the frame.  The whole strip is recomputed when the
    segments cover every position of [0, StripLength), which the reference
    configuration does.  A frame of the wave mode assigns every position. *)
Theorem fade_frame_writes_listed (cfgs : list segment) (uniform : nat -> R)
  (t : R) (np : list color) :
  (forall i, i ∈ all_leds cfgs -> 0 <= i < Z.of_nat (length np)) ->
  (exists np',
     Fade.frame cfgs (Fade.letter_params cfgs uniform) t np = Some np' /\
     length np' = length np /\
     (forall j : nat, Z.of_nat j ∉ all_leds cfgs -> np' !! j = np !! j) /\
     (forall j : nat, Z.of_nat j ∈ all_leds cfgs ->
        exists k cfg,
          cfgs !! k = Some cfg /\ Z.of_nat j ∈ leds cfg /\
          np' !! j =
            Some (Fade.scaled_color
                    (default (255, 255, 255) (Fade.color_map !! letter cfg))
                    (Fade.brightness t (uniform k)))) /\
     ((forall i, 0 <= i < num_leds cfgs -> i ∈ all_leds cfgs) ->
      Z.of_nat (length np) = num_leds cfgs ->
      forall j : nat, (j < length np)%nat ->
        exists k cfg,
          cfgs !! k = Some cfg /\ Z.of_nat j ∈ leds cfg /\
          np' !! j =
            Some (Fade.scaled_color
                    (default (255, 255, 255) (Fade.color_map !! letter cfg))
                    (Fade.brightness t (uniform k))))) /\
  (forall i, 0 <= i < NUM_LEDS -> i ∈ all_leds letter_configs) /\
  (forall (num current_time : Z) (buf : list color),
     Z.of_nat (length buf) = num ->
     exists buf', Wave.frame num current_time buf = Some buf' /\
                  forall i, 0 <= i < num ->
                    buf' !! Z.to_nat i = Some (Wave.led_color num current_time i)).
Proof.
  intros Hvalid. split; [|split].
  - destruct (fade_frame_spec cfgs uniform t np Hvalid)
      as (np' & Hrun & Hlen & Hout & Hsome & _).
    exists np'. split; [exact Hrun|]. split; [exact Hlen|].
    split; [exact Hout|]. split; [exact Hsome|].
    intros Hcover Hnum j Hj. apply Hsome, Hcover. lia.
  - intros i Hi.
    change (all_leds letter_configs) with (seqZ 0 171).
    apply elem_of_seqZ. change NUM_LEDS with 171 in Hi. lia.
  - intros num current_time buf Hlen.
    destruct (wave_frame_spec num current_time buf Hlen) as (buf' & Hrun & _ & Hk).
    exists buf'. split; assumption.
Qed.

Lemma fade_frame_writes_listed_witness :
  exists np',
    Fade.frame [ {| letter := "A"; leds := [0] |}; {| letter := "W"; leds := [2] |} ]
      (Fade.letter_params
         [ {| letter := "A"; leds := [0] |}; {| letter := "W"; leds := [2] |} ]
         (fun _ => 0%R))
      0 [(1, 2, 3); (4, 5, 6); (7, 8, 9)] = Some np' /\
    np' !! 1%nat = Some (4, 5, 6).
Proof.
  set (cfgs := [ {| letter := "A"; leds := [0] |}; {| letter := "W"; leds := [2] |} ]).
  set (np := [(1, 2, 3); (4, 5, 6); (7, 8, 9)] : list color).
  assert (Hvalid : forall i, i ∈ all_leds cfgs -> 0 <= i < Z.of_nat (length np)).
  { intros i Hi. vm_compute in Hi.
    repeat (apply elem_of_cons in Hi as [-> | Hi]; [simpl; lia|]).
    inversion Hi. }
  destruct (fade_frame_writes_listed cfgs (fun _ => 0%R) 0 np Hvalid)
    as ((np' & Hrun & _ & Hout & _) & _).
  exists np'. split; [exact Hrun|].
  assert (Hgap : Z.of_nat 1 ∉ all_leds cfgs)
    by (apply (bool_decide_unpack _); vm_compute; exact I).
  exact (Hout 1%nat Hgap).
Defined.


(** * Further properties of the script *)

(** ** Assigning every pixel *)

(** A loop over [range(num)] on a buffer of [num] pixels replaces the
    whole content: the result lists [f 0], ..., [f (num - 1)]. *)
Lemma set_each_range (f : Z -> color) (num : Z) (np : list color) :
  Z.of_nat (length np) = num ->
  set_each f (Py.range 0 num) np = Some (f <$> seqZ 0 num).
Proof.
  intros Hlen.
  destruct (set_each_spec f (Py.range 0 num) np) as (np' & Hrun & Hlen' & Hk).
  { intros i Hi. unfold Py.range in Hi. apply elem_of_seqZ in Hi. lia. }
  rewrite Hrun. f_equal. apply list_eq. intros k.
  rewrite list_lookup_fmap.
  destruct (decide (Z.of_nat k < num)) as [Hlt | Hge].
  - rewrite lookup_seqZ_lt by exact Hlt. simpl.
    destruct (Hk k) as [Hin _]. apply Hin.
    unfold Py.range. apply elem_of_seqZ. lia.
  - rewrite lookup_seqZ_ge by lia. simpl.
    apply lookup_ge_None. lia.
Qed.

(** X1.  [clear_strip] on the buffer of a strip of [num] LEDs succeeds and
    leaves every pixel at (0,0,0), whatever the buffer held before; clearing
    twice is the same as clearing once. *)
Theorem clear_strip_all_off (num : Z) (np : list color) :
  Z.of_nat (length np) = num ->
  clear_strip num np = Some (replicate (length np) (0, 0, 0)) /\
  (forall np', clear_strip num np = Some np' -> clear_strip num np' = Some np').
Proof.
  intros Hlen.
  assert (Hclear : forall buf : list color,
             Z.of_nat (length buf) = num ->
             clear_strip num buf = Some (replicate (length buf) (0, 0, 0))).
  { intros buf Hbuf. unfold clear_strip.
    rewrite (set_each_range _ num buf Hbuf). f_equal.
    apply list_eq. intros k. rewrite list_lookup_fmap.
    destruct (decide (Z.of_nat k < num)) as [Hlt | Hge].
    - rewrite lookup_seqZ_lt by exact Hlt. simpl.
      symmetry. apply lookup_replicate_2. lia.
    - rewrite lookup_seqZ_ge by lia. simpl.
      symmetry. apply lookup_replicate_None. lia. }
  split; [apply Hclear, Hlen|].
  intros np' Hnp'. rewrite (Hclear np Hlen) in Hnp'. injection Hnp' as <-.
  rewrite Hclear by (rewrite length_replicate; exact Hlen).
  now rewrite length_replicate.
Qed.

Lemma clear_strip_all_off_witness :
  clear_strip 3 [(1, 2, 3); (4, 5, 6); (7, 8, 9)]
  = Some [(0, 0, 0); (0, 0, 0); (0, 0, 0)].
Proof.
  assert (Hlen : Z.of_nat (length ([(1, 2, 3); (4, 5, 6); (7, 8, 9)] : list color)) = 3)
    by reflexivity.
  destruct (clear_strip_all_off 3 [(1, 2, 3); (4, 5, 6); (7, 8, 9)] Hlen) as [H _].
  exact H.
Defined.

(** ** Blending *)

(** Truncation of a float lying between two non-negative integers. *)
Lemma int_between (q : Q) (lo hi : Z) :
  0 <= lo -> (inject_Z lo <= q)%Q -> (q <= inject_Z hi)%Q ->
  lo <= Py.int q <= hi.
Proof.
  intros H0 Hlo Hhi.
  assert (Hq : (0 <= q)%Q).
  { apply Qle_trans with (inject_Z lo); [|exact Hlo].
    change 0%Q with (inject_Z 0). now rewrite <- Zle_Qle. }
  rewrite int_floor by exact Hq. split.
  - rewrite <- (Qfloor_Z lo). now apply Qfloor_resp_le.
  - rewrite <- (Qfloor_Z hi). now apply Qfloor_resp_le.
Qed.

(** One channel of a blend with a factor in [0,1]. *)
Lemma blend_channel_between (a b : Z) (f : Q) :
  0 <= a -> 0 <= b -> (0 <= f <= 1)%Q ->
  Z.min a b <= Py.int ((1 - f) * inject_Z a + f * inject_Z b)%Q <= Z.max a b.
Proof.
  intros Ha Hb Hf.
  assert (Hmin : (inject_Z (Z.min a b) <= inject_Z a)%Q /\
                 (inject_Z (Z.min a b) <= inject_Z b)%Q)
    by (rewrite <- !Zle_Qle; lia).
  assert (Hmax : (inject_Z a <= inject_Z (Z.max a b))%Q /\
                 (inject_Z b <= inject_Z (Z.max a b))%Q)
    by (rewrite <- !Zle_Qle; lia).
  destruct Hmin as [M1 M2]. destruct Hmax as [N1 N2].
  set (qa := inject_Z a) in *. set (qb := inject_Z b) in *.
  set (lo := inject_Z (Z.min a b)) in *. set (hi := inject_Z (Z.max a b)) in *.
  apply int_between; [lia | fold lo | fold hi]; clearbody qa qb lo hi; nra.
Qed.

Lemma blend_color_valid (c1 c2 : color) (f : Q) :
  valid_color c1 -> valid_color c2 -> (0 <= f <= 1)%Q ->
  valid_color (blend_color c1 c2 f).
Proof.
  destruct c1 as [[r1 g1] b1], c2 as [[r2 g2] b2].
  unfold valid_color, valid_channel, blend_color.
  intros (Hr1 & Hg1 & Hb1) (Hr2 & Hg2 & Hb2) Hf.
  pose proof (blend_channel_between r1 r2 f ltac:(lia) ltac:(lia) Hf).
  pose proof (blend_channel_between g1 g2 f ltac:(lia) ltac:(lia) Hf).
  pose proof (blend_channel_between b1 b2 f ltac:(lia) ltac:(lia) Hf).
  repeat split; lia.
Qed.

(** X2.  With a factor in [0,1] the blend of two valid colours is a valid
    colour: no channel leaves [0,255]. *)
Theorem blend_color_in_range (c1 c2 : color) (f : Q) :
  valid_color c1 -> valid_color c2 -> (0 <= f <= 1)%Q ->
  valid_color (blend_color c1 c2 f).
Proof.
  intros H1 H2 Hf. apply blend_color_valid; assumption.
Qed.

Lemma blend_color_in_range_witness :
  valid_color (blend_color (255, 244, 229) (0, 0, 255) (2 # 3)).
Proof.
  apply blend_color_in_range.
  - unfold valid_color, valid_channel. lia.
  - unfold valid_color, valid_channel. lia.
  - split; discriminate.
Defined.

(** ** Conversion from HSV *)

(** Split on every guard of a conditional in the goal. *)
Ltac split_guards :=
  repeat match goal with
         | |- context [if ?b then _ else _] => destruct b
         end.

Lemma triple_eq (a a' b b' c c' : Z) :
  a = a' -> b = b' -> c = c' -> (a, b, c) = (a', b', c').
Proof. congruence. Qed.

(** X3.  With saturation 0 the result is a grey: for every hue the three
    channels are [int(v * 255)]. *)
Theorem hsv_to_rgb_grey (h v : Q) :
  hsv_to_rgb h 0 v = (Py.int (v * 255)%Q, Py.int (v * 255)%Q, Py.int (v * 255)%Q).
Proof.
  assert (Ec : (hsv_c 0 v == 0)%Q) by (unfold hsv_c; ring).
  assert (Ex : (hsv_x h 0 v == 0)%Q) by (unfold hsv_x; rewrite Ec; ring).
  assert (Em : (hsv_m 0 v == v)%Q) by (unfold hsv_m; rewrite Ec; ring).
  unfold hsv_to_rgb, hsv_primes. split_guards;
    apply triple_eq; apply int_proper; rewrite ?Ec, ?Ex, Em; ring.
Qed.

(** X4.  With value 0 the result is black for every hue and saturation. *)
Theorem hsv_to_rgb_black (h s : Q) : hsv_to_rgb h s 0 = (0, 0, 0).
Proof.
  assert (Ec : (hsv_c s 0 == 0)%Q) by (unfold hsv_c; ring).
  assert (Ex : (hsv_x h s 0 == 0)%Q) by (unfold hsv_x; rewrite Ec; ring).
  assert (Em : (hsv_m s 0 == 0)%Q) by (unfold hsv_m; rewrite Ec; ring).
  assert (E0 : forall q : Q, (q == 0)%Q -> Py.int q = 0)
    by (intros q E; now rewrite E).
  unfold hsv_to_rgb, hsv_primes. split_guards;
    apply triple_eq; apply E0; rewrite Em, ?Ex, ?Ec; ring.
Qed.



(** ** The derived strip length *)

Lemma num_leds_step_max (num : Z) (cfg : segment) :
  0 <= num -> num_leds_step num cfg = Z.max num (num_leds_step 0 cfg).
Proof.
  intros Hnum. unfold num_leds_step. destruct (leds cfg) as [|x l]; [lia|].
  simpl. destruct (Z.gtb_spec (Py.max x l + 1) num);
    destruct (Z.gtb_spec (Py.max x l + 1) 0); lia.
Qed.

Lemma num_leds_fold_max (cfgs : list segment) (num : Z) :
  0 <= num -> fold_left num_leds_step cfgs num = Z.max num (num_leds cfgs).
Proof.
  unfold num_leds. revert num. induction cfgs as [|cfg cfgs IH]; intros num Hnum.
  - simpl. lia.
  - simpl.
    destruct (num_leds_step_spec num cfg) as (S1 & _).
    destruct (num_leds_step_spec 0 cfg) as (S0 & _).
    rewrite (IH (num_leds_step num cfg)) by lia.
    rewrite (IH (num_leds_step 0 cfg)) by exact S0.
    rewrite (num_leds_step_max num cfg Hnum). lia.
Qed.

(** X6.  The strip length of two lists of segments put together is the
    larger of their strip lengths, so it does not depend on the order in
    which the segments are listed. *)
Theorem num_leds_app (cfgs1 cfgs2 : list segment) :
  num_leds (cfgs1 ++ cfgs2) = Z.max (num_leds cfgs1) (num_leds cfgs2) /\
  num_leds (cfgs1 ++ cfgs2) = num_leds (cfgs2 ++ cfgs1).
Proof.
  assert (H : forall c1 c2, num_leds (c1 ++ c2) = Z.max (num_leds c1) (num_leds c2)).
  { intros c1 c2. unfold num_leds at 1. rewrite fold_left_app.
    fold (num_leds c1). apply num_leds_fold_max, num_leds_nonneg. }
  split; [apply H|]. rewrite !H. lia.
Qed.

(** X7.  The strip length only depends on which LED indices occur: two
    configurations listing the same indices, however split into segments,
    repeated or ordered, have the same strip length. *)
Theorem num_leds_same_indices (cfgs1 cfgs2 : list segment) :
  (forall i, i ∈ all_leds cfgs1 <-> i ∈ all_leds cfgs2) ->
  num_leds cfgs1 = num_leds cfgs2.
Proof.
  intros Hsame.
  destruct (num_leds_fold_spec cfgs1 0) as (A1 & A2 & A3).
  destruct (num_leds_fold_spec cfgs2 0) as (B1 & B2 & B3).
  fold (num_leds cfgs1) in A1, A2, A3. fold (num_leds cfgs2) in B1, B2, B3.
  assert (L12 : num_leds cfgs1 <= num_leds cfgs2).
  { destruct A3 as [-> | (i & Hi & ->)]; [exact B1|].
    apply Hsame in Hi. specialize (B2 i Hi). lia. }
  assert (L21 : num_leds cfgs2 <= num_leds cfgs1).
  { destruct B3 as [-> | (i & Hi & ->)]; [exact A1|].
    apply Hsame in Hi. specialize (A2 i Hi). lia. }
  lia.
Qed.

Lemma num_leds_same_indices_witness :
  num_leds [ {| letter := "A"; leds := [0; 1] |}; {| letter := "W"; leds := [2] |} ]
  = num_leds [ {| letter := "S"; leds := [2; 1; 0; 1] |} ].
Proof.
  apply num_leds_same_indices. intros i. unfold all_leds. simpl.
  rewrite !elem_of_cons, !elem_of_nil. tauto.
Defined.

(** X8.  The strip length is never negative, and it is 0 exactly when
    no segment lists a non-negative index; in particular it is 0 for an
    empty configuration and when every segment has an empty list. *)
Theorem num_leds_zero (cfgs : list segment) :
  0 <= num_leds cfgs /\
  (num_leds cfgs = 0 <-> forall i, i ∈ all_leds cfgs -> i < 0) /\
  (all_leds cfgs = [] -> num_leds cfgs = 0).
Proof.
  destruct (num_leds_fold_spec cfgs 0) as (A1 & A2 & A3).
  fold (num_leds cfgs) in A1, A2, A3.
  assert (Hiff : num_leds cfgs = 0 <-> forall i, i ∈ all_leds cfgs -> i < 0).
  { split.
    - intros E i Hi. specialize (A2 i Hi). lia.
    - intros Hneg. destruct A3 as [E | (i & Hi & E)]; [exact E|].
      specialize (Hneg i Hi). lia. }
  split; [exact A1|]. split; [exact Hiff|].
  intros Hnil. apply Hiff. intros i Hi. rewrite Hnil in Hi. inversion Hi.
Qed.

(** ** Fade mode *)

(** Truncation of a real between 0 and an integer. *)
Lemma fade_int_between (x : R) (hi : Z) :
  (0 <= x <= IZR hi)%R -> 0 <= Fade.int x <= hi.
Proof.
  intros [H0 Hhi]. unfold Fade.int.
  destruct (Rle_dec 0 x) as [_ | Hn]; [|contradiction].
  split.
  - rewrite <- (ZfloorZ 0). now apply Zfloor_le.
  - rewrite <- (ZfloorZ hi). now apply Zfloor_le.
Qed.

Lemma scaled_channel_between (r : Z) (b : R) :
  0 <= r -> (0 <= b <= 1)%R -> 0 <= Fade.int (IZR r * b) <= r.
Proof.
  intros Hr Hb. apply fade_int_between.
  assert (H : (0 <= IZR r)%R) by (now apply IZR_le).
  nra.
Qed.

Lemma scaled_color_valid (base : color) (b : R) :
  valid_color base -> (0 <= b <= 1)%R -> valid_color (Fade.scaled_color base b).
Proof.
  destruct base as [[r g] bl]. unfold valid_color, valid_channel, Fade.scaled_color.
  intros (Hr & Hg & Hbl) Hb.
  pose proof (scaled_channel_between r b ltac:(lia) Hb).
  pose proof (scaled_channel_between g b ltac:(lia) Hb).
  pose proof (scaled_channel_between bl b ltac:(lia) Hb).
  lia.
Qed.

(** Every colour of the table, and the fallback, is valid. *)
Lemma color_map_valid (l : string) :
  valid_color (default (255, 255, 255) (Fade.color_map !! l)).
Proof.
  destruct (Fade.color_map !! l) as [c|] eqn:E; simpl.
  - unfold Fade.color_map in E. apply elem_of_list_to_map_2 in E.
    rewrite !elem_of_cons, elem_of_nil in E.
    destruct E as [E|[E|[E|[E|[E|[E|[]]]]]]]; injection E as _ ->;
      unfold valid_color, valid_channel; lia.
  - unfold valid_color, valid_channel. lia.
Qed.

(** X9.  A letter is never brighter than its base colour: for a valid
    base colour and any time and phase offset, each channel of the scaled
    colour lies between 0 and the channel of the base colour. *)
Theorem fade_never_brighter (base : color) (t phase : R) :
  valid_color base ->
  let '(r0, g0, b0) := base in
  let '(r, g, b) := Fade.scaled_color base (Fade.brightness t phase) in
  0 <= r <= r0 /\ 0 <= g <= g0 /\ 0 <= b <= b0.
Proof.
  destruct base as [[r0 g0] b0]. unfold valid_color, valid_channel, Fade.scaled_color.
  intros (Hr & Hg & Hb).
  pose proof (brightness_range t phase) as Hbr.
  split; [|split]; apply scaled_channel_between; (lia || exact Hbr).
Qed.

Lemma fade_never_brighter_witness :
  let '(r, g, b) := Fade.scaled_color (255, 0, 255) (Fade.brightness 1 2) in
  0 <= r <= 255 /\ 0 <= g <= 0 /\ 0 <= b <= 255.
Proof.
  apply (fade_never_brighter (255, 0, 255) 1 2).
  unfold valid_color, valid_channel. lia.
Defined.

(** X10.  A frame of the fade mode keeps the buffer well formed: when
    the listed indices are positions of the buffer and every pixel holds a
    valid colour before the frame, the frame succeeds, the buffer keeps its
    length and every pixel holds a valid colour after it. *)
Theorem fade_frame_keeps_valid (cfgs : list segment) (uniform : nat -> R)
  (t : R) (np : list color) :
  (forall i, i ∈ all_leds cfgs -> 0 <= i < Z.of_nat (length np)) ->
  Forall valid_color np ->
  exists np',
    Fade.frame cfgs (Fade.letter_params cfgs uniform) t np = Some np' /\
    length np' = length np /\
    Forall valid_color np'.
Proof.
  intros Hvalid Hnp.
  destruct (fade_frame_spec cfgs uniform t np Hvalid)
    as (np' & Hrun & Hlen & Hout & Hsome & _).
  exists np'. split; [exact Hrun|]. split; [exact Hlen|].
  apply Forall_lookup. intros j c Hj.
  destruct (decide (Z.of_nat j ∈ all_leds cfgs)) as [Hin | Hnin].
  - destruct (Hsome j Hin) as (k & cfg & _ & _ & Hc).
    rewrite Hc in Hj. injection Hj as <-.
    apply scaled_color_valid; [apply color_map_valid | apply brightness_range].
  - rewrite (Hout j Hnin) in Hj.
    eapply Forall_lookup_1; eauto.
Qed.

Lemma fade_frame_keeps_valid_witness :
  exists np',
    Fade.frame [ {| letter := "N"; leds := [1; 0] |} ]
      (Fade.letter_params [ {| letter := "N"; leds := [1; 0] |} ] (fun _ => 1%R))
      3 [(9, 9, 9); (0, 0, 0)] = Some np' /\
    Forall valid_color np'.
Proof.
  set (cfgs := [ {| letter := "N"; leds := [1; 0] |} ]).
  set (np := [(9, 9, 9); (0, 0, 0)] : list color).
  assert (Hvalid : forall i, i ∈ all_leds cfgs -> 0 <= i < Z.of_nat (length np)).
  { intros i Hi. unfold all_leds in Hi. simpl in Hi.
    rewrite !elem_of_cons, elem_of_nil in Hi. simpl. lia. }
  assert (Hnp : Forall valid_color np).
  { repeat constructor; unfold valid_channel; lia. }
  destruct (fade_frame_keeps_valid cfgs (fun _ => 1%R) 3 np Hvalid Hnp)
    as (np' & Hrun & _ & Hall).
  exists np'. split; [exact Hrun | exact Hall].
Defined.

(** X11.  The derived strip length rules out an index error: for a
    configuration without negative indices, a frame of the fade mode on a
    buffer of [num_leds] pixels always succeeds and keeps the length. *)
Theorem fade_frame_no_index_error (cfgs : list segment) (uniform : nat -> R)
  (t : R) (np : list color) :
  (forall i, i ∈ all_leds cfgs -> 0 <= i) ->
  Z.of_nat (length np) = num_leds cfgs ->
  exists np',
    Fade.frame cfgs (Fade.letter_params cfgs uniform) t np = Some np' /\
    length np' = length np.
Proof.
  intros Hpos Hlen.
  destruct (fade_frame_spec cfgs uniform t np) as (np' & Hrun & Hlen' & _).
  { intros i Hi. rewrite Hlen. split; [apply Hpos, Hi | apply num_leds_above, Hi]. }
  exists np'. split; assumption.
Qed.

Lemma fade_frame_no_index_error_witness :
  exists np',
    Fade.frame [ {| letter := "E"; leds := [2; 0] |} ]
      (Fade.letter_params [ {| letter := "E"; leds := [2; 0] |} ] (fun _ => 0%R))
      7 (replicate 3 (0, 0, 0)) = Some np' /\
    length np' = 3%nat.
Proof.
  set (cfgs := [ {| letter := "E"; leds := [2; 0] |} ]).
  assert (Hpos : forall i, i ∈ all_leds cfgs -> 0 <= i).
  { intros i Hi. unfold all_leds in Hi. simpl in Hi.
    rewrite !elem_of_cons, elem_of_nil in Hi. lia. }
  assert (Hlen : Z.of_nat (length (replicate 3 (0, 0, 0) : list color)) = num_leds cfgs)
    by reflexivity.
  destruct (fade_frame_no_index_error cfgs (fun _ => 0%R) 7 (replicate 3 (0, 0, 0)) Hpos Hlen)
    as (np' & Hrun & Hlen').
  exists np'. split; [exact Hrun | exact Hlen'].
Defined.

(** X13.  When [2 * PI * t / 5 + phase] is three quarters of a turn the
    brightness is 0 and the letter is dark, (0,0,0), whatever its base
    colour. *)
Theorem fade_dark_point (t phase : R) (base : color) :
  (2 * PI * (t / 5) + phase = 3 * (PI / 2))%R ->
  Fade.brightness t phase = 0%R /\
  Fade.scaled_color base (Fade.brightness t phase) = (0, 0, 0).
Proof.
  intros H.
  assert (E : Fade.brightness t phase = 0%R).
  { unfold Fade.brightness, Fade.period. rewrite H, sin_3PI2. field. }
  split; [exact E|]. rewrite E.
  destruct base as [[r g] b]. unfold Fade.scaled_color.
  rewrite !Rmult_0_r. change 0%R with (IZR 0). now rewrite fade_int_IZR.
Qed.

Lemma fade_dark_point_witness :
  Fade.scaled_color (255, 255, 0) (Fade.brightness (15 / 4) 0) = (0, 0, 0).
Proof.
  apply (fade_dark_point (15 / 4) 0 (255, 255, 0)). field.
Defined.

(** X14.  The set-up loop makes one parameter record per segment, in
    order: the record of segment [k] carries the [k]-th random draw as
    phase offset and the table colour of the segment's letter, or white
    (255,255,255) when the letter is none of A, W, R, E, N, S. *)
Theorem letter_params_per_segment (cfgs : list segment) (uniform : nat -> R) :
  length (Fade.letter_params cfgs uniform) = length cfgs /\
  forall k cfg,
    cfgs !! k = Some cfg ->
    exists p,
      Fade.letter_params cfgs uniform !! k = Some p /\
      Fade.phase_offset p = uniform k /\
      (forall c, Fade.color_map !! letter cfg = Some c -> Fade.base_color p = c) /\
      (letter cfg ∉ ["A"; "W"; "R"; "E"; "N"; "S"] ->
       Fade.base_color p = (255, 255, 255)).
Proof.
  split; [apply length_imap|].
  intros k cfg Hc.
  assert (Hp : is_Some (Fade.letter_params cfgs uniform !! k)).
  { apply lookup_lt_is_Some. unfold Fade.letter_params. rewrite length_imap.
    eapply lookup_lt_Some; eauto. }
  destruct Hp as [p Hp]. exists p. split; [exact Hp|].
  destruct (letter_params_lookup _ _ _ _ Hp) as (cfg' & Hc' & Hb & Hph).
  assert (cfg' = cfg) by congruence. subst cfg'.
  split; [exact Hph|]. split.
  - intros c E. rewrite Hb. exact (f_equal (default (255, 255, 255)) E).
  - intros Hnot.
    assert (E : Fade.color_map !! letter cfg = None)
      by (apply not_elem_of_list_to_map_1; exact Hnot).
    rewrite Hb. exact (f_equal (default (255, 255, 255)) E).
Qed.

Lemma letter_params_per_segment_witness :
  exists p,
    Fade.letter_params [ {| letter := "X"; leds := [0] |} ] (fun _ => 2%R) !! 0%nat
    = Some p /\
    Fade.base_color p = (255, 255, 255).
Proof.
  destruct (letter_params_per_segment [ {| letter := "X"; leds := [0] |} ] (fun _ => 2%R))
    as [_ H].
  destruct (H 0%nat {| letter := "X"; leds := [0] |} eq_refl) as (p & Hp & _ & _ & Hwhite).
  exists p. split; [exact Hp|]. apply Hwhite.
  apply (bool_decide_unpack _). vm_compute. exact I.
Defined.

(** When segments overlap, the last segment that lists a position decides
    its colour. *)
Lemma update_letters_last (params : list Fade.letter_param) (t : R)
  (cfgs : list segment) :
  forall (idx : nat) (np : list color),
    (forall i, i ∈ all_leds cfgs -> 0 <= i < Z.of_nat (length np)) ->
    (forall k, (k < length cfgs)%nat -> is_Some (params !! (idx + k)%nat)) ->
    exists np',
      Fade.update_letters params t idx cfgs np = Some np' /\
      forall k cfg p (j : nat),
        cfgs !! k = Some cfg -> params !! (idx + k)%nat = Some p ->
        Z.of_nat j ∈ leds cfg ->
        (forall k' cfg', (k < k')%nat -> cfgs !! k' = Some cfg' ->
                         Z.of_nat j ∉ leds cfg') ->
        np' !! j = Some (Fade.letter_color p t).
Proof.
  induction cfgs as [|cfg rest IH]; intros idx np Hvalid Hparams.
  - exists np. split; [reflexivity|].
    intros k cfg p j Hk. rewrite lookup_nil in Hk. discriminate.
  - destruct (Hparams 0%nat) as [p0 Hp0]; [simpl; lia|].
    rewrite Nat.add_0_r in Hp0.
    destruct (set_each_spec (fun _ => Fade.letter_color p0 t) (leds cfg) np)
      as (np1 & Hrun1 & Hlen1 & Hk1).
    { intros i Hi. apply Hvalid. rewrite all_leds_cons.
      apply elem_of_app. now left. }
    assert (Hvalid1 : forall i, i ∈ all_leds rest ->
                                0 <= i < Z.of_nat (length np1)).
    { intros i Hi. rewrite Hlen1. apply Hvalid. rewrite all_leds_cons.
      apply elem_of_app. now right. }
    assert (Hparams1 : forall k, (k < length rest)%nat ->
                                 is_Some (params !! (S idx + k)%nat)).
    { intros k Hk. replace (S idx + k)%nat with (idx + S k)%nat by lia.
      apply Hparams. simpl. lia. }
    destruct (IH (S idx) np1 Hvalid1 Hparams1) as (np' & Hrun & Hlast).
    destruct (update_letters_spec params t rest (S idx) np1 Hvalid1 Hparams1)
      as (np'' & Hrun'' & _ & Hout & _).
    rewrite Hrun in Hrun''. injection Hrun'' as <-.
    exists np'. split.
    { simpl. rewrite Hp0. simpl. rewrite Hrun1. simpl. exact Hrun. }
    intros k cfg' p j Hc Hp Hin Hlater.
    destruct k as [|k]; simpl in Hc.
    + injection Hc as <-. rewrite Nat.add_0_r, Hp0 in Hp. injection Hp as <-.
      assert (Hnot : Z.of_nat j ∉ all_leds rest).
      { intros Hmem. destruct (all_leds_elem_of rest _ Hmem) as (k' & c' & Hc' & Hl').
        apply (Hlater (S k') c'); [lia | exact Hc' | exact Hl']. }
      rewrite (Hout j Hnot). apply (Hk1 j), Hin.
    + apply (Hlast k cfg' p j Hc); [|exact Hin|].
      * replace (S idx + k)%nat with (idx + S k)%nat by lia. exact Hp.
      * intros k' c' Hlt Hc'. apply (Hlater (S k') c'); [lia | exact Hc'].
Qed.

(** X15.  When an LED index is listed by several segments, the frame of
    the fade mode leaves it with the colour of the last segment that lists
    it. *)
Theorem fade_frame_last_segment_wins (cfgs : list segment) (uniform : nat -> R)
  (t : R) (np : list color) :
  (forall i, i ∈ all_leds cfgs -> 0 <= i < Z.of_nat (length np)) ->
  exists np',
    Fade.frame cfgs (Fade.letter_params cfgs uniform) t np = Some np' /\
    forall k cfg led,
      cfgs !! k = Some cfg -> led ∈ leds cfg ->
      (forall k' cfg', (k < k')%nat -> cfgs !! k' = Some cfg' -> led ∉ leds cfg') ->
      np' !! Z.to_nat led =
        Some (Fade.scaled_color
                (default (255, 255, 255) (Fade.color_map !! letter cfg))
                (Fade.brightness t (uniform k))).
Proof.
  intros Hvalid.
  destruct (update_letters_last (Fade.letter_params cfgs uniform) t cfgs 0 np Hvalid)
    as (np' & Hrun & Hlast).
  { intros k Hk. apply lookup_lt_is_Some. unfold Fade.letter_params.
    rewrite length_imap. simpl. exact Hk. }
  exists np'. split; [exact Hrun|].
  intros k cfg led Hc Hin Hlater.
  assert (Hled : 0 <= led) by (apply Hvalid; eapply elem_of_all_leds; eauto).
  assert (Hp : is_Some (Fade.letter_params cfgs uniform !! k)).
  { apply lookup_lt_is_Some. unfold Fade.letter_params. rewrite length_imap.
    eapply lookup_lt_Some; eauto. }
  destruct Hp as [p Hp].
  destruct (letter_params_lookup _ _ _ _ Hp) as (cfg' & Hc' & Hb & Hph).
  assert (cfg' = cfg) by congruence. subst cfg'.
  rewrite (Hlast k cfg p (Z.to_nat led) Hc Hp).
  - unfold Fade.letter_color. now rewrite Hb, Hph.
  - now rewrite Z2Nat.id.
  - intros k' c' Hlt Hc''. rewrite Z2Nat.id by exact Hled. eauto.
Qed.

Lemma fade_frame_last_segment_wins_witness :
  exists np',
    Fade.frame [ {| letter := "A"; leds := [0; 1] |}; {| letter := "W"; leds := [1] |} ]
      (Fade.letter_params
         [ {| letter := "A"; leds := [0; 1] |}; {| letter := "W"; leds := [1] |} ]
         (fun _ => 0%R))
      0 [(0, 0, 0); (0, 0, 0)] = Some np' /\
    np' !! 1%nat = Some (0, 127, 0).
Proof.
  set (cfgA := {| letter := "A"; leds := [0; 1] |}).
  set (cfgW := {| letter := "W"; leds := [1] |}).
  set (np := [(0, 0, 0); (0, 0, 0)] : list color).
  assert (Hvalid : forall i, i ∈ all_leds [cfgA; cfgW] ->
                             0 <= i < Z.of_nat (length np)).
  { intros i Hi. unfold all_leds in Hi. simpl in Hi.
    rewrite !elem_of_cons, elem_of_nil in Hi. simpl. lia. }
  destruct (fade_frame_last_segment_wins [cfgA; cfgW] (fun _ => 0%R) 0 np Hvalid)
    as (np' & Hrun & Hlast).
  exists np'. split; [exact Hrun|].
  specialize (Hlast 1%nat cfgW 1 eq_refl).
  simpl letter in Hlast. simpl leds in Hlast.
  rewrite color_map_W, brightness_start in Hlast. simpl default in Hlast.
  rewrite scaled_color_half_green in Hlast.
  apply Hlast; [left|].
  intros k' cfg' Hlt Hc'. destruct k' as [|[|k']]; [lia | lia | discriminate Hc'].
Defined.

(** ** Wave mode *)

(** The palette lookup never leaves the palette, whatever the sign of the
    position. *)
Lemma wave_color_in_palette (wp : Q) : Wave.wave_color wp ∈ Wave.wave_colors.
Proof.
  unfold Wave.wave_color. simpl length.
  pose proof (Z.mod_pos_bound (Py.int wp) 3 eq_refl) as Hb.
  change (Z.of_nat 3) with 3.
  set (k := Py.int wp mod 3) in *.
  assert (Hk : k = 0 \/ k = 1 \/ k = 2) by lia.
  destruct Hk as [-> | [-> | ->]]; simpl.
  - left.
  - right; left.
  - right; right; left.
Qed.

Lemma wave_led_color_valid (num current_time i : Z) :
  valid_color (Wave.led_color num current_time i).
Proof.
  assert (Hwarm : valid_color Wave.warm_white)
    by (unfold valid_color, valid_channel, Wave.warm_white; lia).
  unfold Wave.led_color, Py.abs, Wave.threshold. change (inject_Z 3) with 3%Q.
  set (wp := Wave.wave_pos num current_time).
  set (d := Qabs (inject_Z i - wp)).
  destruct (Py.ltb d 3) eqn:E; [|exact Hwarm].
  apply ltb_lt in E.
  assert (Hd : (0 <= d)%Q) by apply Qabs_nonneg.
  apply blend_color_valid; [exact Hwarm | |].
  - pose proof (wave_color_in_palette wp) as Hin.
    unfold Wave.wave_colors in Hin.
    rewrite !elem_of_cons, elem_of_nil in Hin.
    destruct Hin as [-> | [-> | [-> | []]]];
      unfold valid_color, valid_channel; lia.
  - split.
    + assert (H : (d / 3 <= 1)%Q) by (apply Qle_shift_div_r; [reflexivity | lra]).
      lra.
    + assert (H : (0 <= d / 3)%Q) by (apply Qle_shift_div_l; [reflexivity | lra]).
      lra.
Qed.

Lemma wave_pos_period (num current_time : Z) :
  Wave.wave_pos num (current_time + 10000) = Wave.wave_pos num current_time.
Proof.
  unfold Wave.wave_pos, Wave.phase, Wave.wave_period_ms.
  replace ((current_time + 10000) mod 10000) with (current_time mod 10000);
    [reflexivity|].
  replace (current_time + 10000) with (current_time + 1 * 10000) by lia.
  now rewrite Z.mod_add.
Qed.

(** X16.  Every pixel of a frame of the wave mode holds a valid colour,
    for every tick value and strip length: the blend factor
    [1 - distance / 3] is only used when it lies in (0,1]. *)
Theorem wave_frame_valid (num current_time : Z) (np : list color) :
  Z.of_nat (length np) = num ->
  exists np', Wave.frame num current_time np = Some np' /\
              length np' = length np /\
              Forall valid_color np'.
Proof.
  intros Hlen.
  destruct (wave_frame_spec num current_time np Hlen) as (np' & Hrun & Hlen' & Hk).
  exists np'. split; [exact Hrun|]. split; [exact Hlen'|].
  apply Forall_lookup. intros j c Hj.
  assert (Hlt : (j < length np')%nat) by (eapply lookup_lt_Some; eauto).
  specialize (Hk (Z.of_nat j) ltac:(lia)). rewrite Nat2Z.id in Hk.
  rewrite Hk in Hj. injection Hj as <-. apply wave_led_color_valid.
Qed.

Lemma wave_frame_valid_witness :
  exists np', Wave.frame 8 2500 (replicate 8 (0, 0, 0)) = Some np' /\
              Forall valid_color np'.
Proof.
  assert (Hlen : Z.of_nat (length (replicate 8 (0, 0, 0) : list color)) = 8)
    by reflexivity.
  destruct (wave_frame_valid 8 2500 (replicate 8 (0, 0, 0)) Hlen)
    as (np' & Hrun & _ & Hall).
  exists np'. split; [exact Hrun | exact Hall].
Defined.

(** X17.  A frame of the wave mode does not depend on what the buffer
    held before, and it repeats every 10000 ticks. *)
Theorem wave_frame_stateless_periodic (num current_time : Z) (np1 np2 : list color) :
  Z.of_nat (length np1) = num -> Z.of_nat (length np2) = num ->
  Wave.frame num current_time np1 = Wave.frame num current_time np2 /\
  Wave.frame num (current_time + 10000) np1 = Wave.frame num current_time np1.
Proof.
  intros H1 H2. unfold Wave.frame.
  rewrite !set_each_range by assumption. split; [reflexivity|].
  f_equal. apply list_fmap_ext. intros _ i _.
  unfold Wave.led_color. now rewrite wave_pos_period.
Qed.

Lemma wave_frame_stateless_periodic_witness :
  Wave.frame 8 12500 (replicate 8 (7, 7, 7)) = Wave.frame 8 2500 (replicate 8 (7, 7, 7)).
Proof.
  assert (Hlen : Z.of_nat (length (replicate 8 (7, 7, 7) : list color)) = 8)
    by reflexivity.
  destruct (wave_frame_stateless_periodic 8 2500 (replicate 8 (7, 7, 7))
              (replicate 8 (7, 7, 7)) Hlen Hlen) as [_ H].
  exact H.
Defined.

(** X18.  The highlight of the wave is narrow: a pixel that is not warm
    white after the frame is less than 3 positions from the wave, so two
    such pixels are at most 5 positions apart. *)
Theorem wave_highlight_window (num current_time : Z) (np : list color) :
  Z.of_nat (length np) = num ->
  exists np',
    Wave.frame num current_time np = Some np' /\
    (forall i, 0 <= i < num ->
       np' !! Z.to_nat i <> Some Wave.warm_white ->
       (Qabs (inject_Z i - Wave.wave_pos num current_time) < 3)%Q) /\
    (forall i j, 0 <= i < num -> 0 <= j < num ->
       np' !! Z.to_nat i <> Some Wave.warm_white ->
       np' !! Z.to_nat j <> Some Wave.warm_white ->
       Z.abs (i - j) <= 5).
Proof.
  intros Hlen.
  destruct (wave_frame_spec num current_time np Hlen) as (np' & Hrun & _ & Hk).
  exists np'. split; [exact Hrun|].
  assert (Hnear : forall i, 0 <= i < num ->
             np' !! Z.to_nat i <> Some Wave.warm_white ->
             (Qabs (inject_Z i - Wave.wave_pos num current_time) < 3)%Q).
  { intros i Hi Hne. rewrite (Hk i Hi) in Hne.
    destruct (wave_led_color_spec num current_time i) as (Hfar & _).
    destruct (Qlt_le_dec (Qabs (inject_Z i - Wave.wave_pos num current_time)) 3)
      as [Hlt | Hge]; [exact Hlt|].
    exfalso. apply Hne. f_equal. apply Hfar, Hge. }
  split; [exact Hnear|].
  intros i j Hi Hj Hni Hnj.
  pose proof (Hnear i Hi Hni) as Di. pose proof (Hnear j Hj Hnj) as Dj.
  apply Qabs_Qlt_condition in Di. apply Qabs_Qlt_condition in Dj.
  set (wp := Wave.wave_pos num current_time) in *.
  assert (A : (inject_Z (i - j) < inject_Z 6)%Q).
  { replace (i - j) with (i + - j) by lia.
    rewrite inject_Z_plus, inject_Z_opp.
    change (inject_Z 6) with 6%Q. lra. }
  assert (B : (inject_Z (-6) < inject_Z (i - j))%Q).
  { replace (i - j) with (i + - j) by lia.
    rewrite inject_Z_plus, inject_Z_opp.
    change (inject_Z (-6)) with (-6 # 1)%Q. lra. }
  rewrite <- Zlt_Qlt in A, B. lia.
Qed.

Lemma wave_highlight_window_witness :
  exists np',
    Wave.frame 8 2500 (replicate 8 (0, 0, 0)) = Some np' /\
    (np' !! 7%nat <> Some Wave.warm_white ->
     (Qabs (inject_Z 7 - Wave.wave_pos 8 2500) < 3)%Q).
Proof.
  assert (Hlen : Z.of_nat (length (replicate 8 (0, 0, 0) : list color)) = 8)
    by reflexivity.
  destruct (wave_highlight_window 8 2500 (replicate 8 (0, 0, 0)) Hlen)
    as (np' & Hrun & Hnear & _).
  exists np'. split; [exact Hrun|].
  apply (Hnear 7). lia.
Defined.
